(** * Boston Trees Explorer: the dashboard's queries and views

    A shallow embedding of [pusczko_final_project.py].  The program loads a
    CSV of tree records into a pandas DataFrame and, on each interaction,
    filters and counts rows and hands the result to a plotting or mapping
    call.

    Modelling choices.
    - A float64 cell is a [num]: NaN (pandas' missing value), the two
      infinities, or a finite value embedded in [Q].  Order comparisons on
      finite doubles agree with the comparisons of the rationals they denote.
    - A DataFrame is a list of [row] records in index order; the six columns
      the program reads are assumed present (a CSV lacking one of them makes
      the column access raise before anything is computed).
    - DataFrames are mutable objects: they live in a store indexed by
      references.  Boolean indexing and [dropna] allocate a new object,
      column assignment writes in place.
    - Streamlit calls are recorded, in order, on a screen log.  Widget return
      values are supplied by a [widgets] record.  [st.slider] raises
      StreamlitAPIException, showing nothing, unless its lower bound is below
      its upper bound and both are safe integers (at most 2^53 - 1 in
      absolute value). *)

From Stdlib Require Import ZArith QArith List String Sorted Permutation Lia.
From stdpp Require Import base gmap strings list.
Import ListNotations.

Local Open Scope Z_scope.
Local Open Scope string_scope.

(** ** Numbers *)

(** A cell of a numeric column. *)
Inductive num : Type :=
| NaN
| NegInf
| Fin (q : Q)
| PosInf.

(** The comparison [a <= b] of two floats, as Python and numpy evaluate it:
    false as soon as one side is NaN. *)
Definition num_leb (a b : num) : bool :=
  match a, b with
  | NaN, _ | _, NaN => false
  | NegInf, _ => true
  | _, PosInf => true
  | Fin p, Fin q => Qle_bool p q
  | Fin _, NegInf => false
  | PosInf, _ => false
  end.

(** The mathematical order the comparison decides. *)
Inductive num_le : num -> num -> Prop :=
| le_neginf b : b <> NaN -> num_le NegInf b
| le_posinf a : a <> NaN -> num_le a PosInf
| le_fin p q : (p <= q)%Q -> num_le (Fin p) (Fin q).

Definition notna (x : num) : bool :=
  match x with NaN => false | _ => true end.

Definition isfinite (x : num) : bool :=
  match x with Fin _ => true | _ => false end.

Definition of_Z (z : Z) : num := Fin (inject_Z z).

(** [Series.between(lo, hi)], inclusive on both sides. *)
Definition between (lo hi x : num) : bool := num_leb lo x && num_leb x hi.

(** [Series.fillna(v)] on one cell. *)
Definition fillna (v x : num) : num :=
  match x with NaN => v | _ => x end.

(** Float addition, exact on finite values. *)
Definition num_add (a b : num) : num :=
  match a, b with
  | NaN, _ | _, NaN => NaN
  | PosInf, NegInf | NegInf, PosInf => NaN
  | PosInf, _ | _, PosInf => PosInf
  | NegInf, _ | _, NegInf => NegInf
  | Fin p, Fin q => Fin (p + q)
  end.

Definition num_div_nat (a : num) (n : nat) : num :=
  match n, a with
  | O, _ => NaN
  | _, Fin p => Fin (p / inject_Z (Z.of_nat n))
  | _, _ => a
  end.

(** Two-argument minimum and maximum that skip NaN, the step of
    [Series.min()] and [Series.max()] with the default [skipna=True]. *)
Definition num_min (a b : num) : num :=
  match a, b with
  | NaN, _ => b
  | _, NaN => a
  | _, _ => if num_leb a b then a else b
  end.

Definition num_max (a b : num) : num :=
  match a, b with
  | NaN, _ => b
  | _, NaN => a
  | _, _ => if num_leb a b then b else a
  end.

(** [Series.min()], [Series.max()]: NaN when no value is present. *)
Definition series_min (s : list num) : num := fold_right num_min NaN s.
Definition series_max (s : list num) : num := fold_right num_max NaN s.

(** [Series.mean()]: NaN cells are skipped. *)
Definition series_mean (s : list num) : num :=
  let present := List.filter notna s in
  num_div_nat (fold_right num_add (of_Z 0) present) (length present).

(** ** Exceptions *)

Inductive exn : Type :=
| ValueError
| OverflowError
| KeyError
| StreamlitAPIException
| UnboundReference.

(** Python's [int(x)] on a float: truncation toward zero; NaN raises
    ValueError and an infinity raises OverflowError. *)
Definition py_int (x : num) : exn + Z :=
  match x with
  | NaN => inl ValueError
  | NegInf | PosInf => inl OverflowError
  | Fin q => inr (Z.quot (Qnum q) (Zpos (Qden q)))
  end.

(** ** The table *)

Definition rgb : Type := list Z.

Record row : Type := mkRow {
  spp_com : option string;
  dbh : num;
  point_x : num;
  point_y : num;
  neighborhood : option string;
  park : option string;
  color : option rgb
}.

Definition table : Type := list row.

Definition set_point_x (r : row) (v : num) : row :=
  mkRow (spp_com r) (dbh r) v (point_y r) (neighborhood r) (park r) (color r).
Definition set_point_y (r : row) (v : num) : row :=
  mkRow (spp_com r) (dbh r) (point_x r) v (neighborhood r) (park r) (color r).
Definition set_dbh (r : row) (v : num) : row :=
  mkRow (spp_com r) v (point_x r) (point_y r) (neighborhood r) (park r) (color r).
Definition set_spp_com (r : row) (v : option string) : row :=
  mkRow v (dbh r) (point_x r) (point_y r) (neighborhood r) (park r) (color r).
Definition set_color (r : row) (v : rgb) : row :=
  mkRow (spp_com r) (dbh r) (point_x r) (point_y r) (neighborhood r) (park r) (Some v).

(** [df[name] = values]: the column is replaced cell by cell, in index
    order. *)
Fixpoint assign {A : Type} (upd : row -> A -> row) (t : table) (vals : list A) : table :=
  match t, vals with
  | r :: t', v :: vals' => upd r v :: assign upd t' vals'
  | _, _ => t
  end.

(** [series == value] for a text column compared with a Python [str] or
    [None]: a missing cell equals nothing, and [None] equals no cell. *)
Definition eq_text (c : option string) (v : option string) : bool :=
  match c, v with
  | Some a, Some b => String.eqb a b
  | _, _ => false
  end.

(** ** What the program shows *)

(** A piece of an f-string: literal text, a formatted [str]-or-[None], an
    integer, or a colour printed as six hexadecimal digits. *)
Inductive frag : Type :=
| Lit (s : string)
| FStr (v : option string)
| FInt (z : Z)
| FHex (c : rgb).

Definition text : Type := list frag.

(** A matplotlib figure.  Bar colours are indices into the [tab20]
    palette, which has twenty entries. *)
Inductive figure : Type :=
| BarFigure (labels : list string) (heights : list nat) (colors : list nat)
            (xticklabels : list string) (ylabel : string) (title : text)
| PieFigure (values : list nat) (labels : list string) (title : text).

(** A pydeck [Deck] with one scatterplot layer. *)
Record deck : Type := mkDeck {
  layer_data : table;
  latitude : num;
  longitude : num
}.

Inductive event : Type :=
| st_title (t : text)
| st_header (t : text)
| st_subheader (t : text)
| st_selectbox (label : string) (options : list string)
| st_slider (label : string) (min_value max_value : Z)
| st_write (t : text)
| st_info (t : text)
| st_caption (t : text)
| st_pyplot (f : figure)
| st_pydeck_chart (d : deck)
| st_markdown (column : nat) (t : text).

(** ** The session: a store of DataFrames and a screen *)

Definition loc : Type := nat.

Record session : Type := mkSession {
  frames : gmap loc table;
  screen : list event
}.

Definition app (A : Type) : Type := session -> (exn + A) * session.

Definition ret {A : Type} (a : A) : app A := fun s => (inr a, s).

Definition bind {A B : Type} (m : app A) (k : A -> app B) : app B :=
  fun s =>
    match m s with
    | (inl e, s') => (inl e, s')
    | (inr a, s') => k a s'
    end.

Definition raise {A : Type} (e : exn) : app A := fun s => (inl e, s).

Definition lift {A : Type} (r : exn + A) : app A := fun s => (r, s).

Declare Scope app_scope.
Delimit Scope app_scope with app.
Notation "x <- m ;; k" := (bind m (fun x => k))
  (at level 20, m at level 99, k at level 200, only parsing) : app_scope.
Notation "' pat <- m ;; k" := (bind m (fun x => match x with pat => k end))
  (at level 20, pat pattern, m at level 99, k at level 200, only parsing) : app_scope.
Notation "m ;; k" := (bind m (fun _ => k))
  (at level 100, k at level 200, only parsing, right associativity) : app_scope.
Local Open Scope app_scope.

(** A Streamlit call appends to the screen. *)
Definition emit (e : event) : app unit :=
  fun s => (inr tt, mkSession (frames s) (screen s ++ [e])%list).

(** Dereference a DataFrame. *)
Definition frame (l : loc) : app table :=
  fun s =>
    match frames s !! l with
    | Some t => (inr t, s)
    | None => (inl UnboundReference, s)
    end.

(** Construct a new DataFrame object. *)
Definition new_frame (t : table) : app loc :=
  fun s =>
    let l := fresh (dom (frames s)) in
    (inr l, mkSession (<[l := t]> (frames s)) (screen s)).

(** Overwrite the object behind a reference. *)
Definition store_frame (l : loc) (t : table) : app unit :=
  fun s => (inr tt, mkSession (<[l := t]> (frames s)) (screen s)).

(** [df[col]]: read a column as a Series. *)
Definition column {A : Type} (proj : row -> A) (l : loc) : app (list A) :=
  t <- frame l ;; ret (map proj t).

(** [df[mask]]: boolean indexing returns a new DataFrame. *)
Definition getitem_mask (l : loc) (mask : row -> bool) : app loc :=
  t <- frame l ;; new_frame (List.filter mask t).

(** [df.dropna(subset=['point_x', 'point_y'])]: a new DataFrame without
    the rows where one of the two cells is missing. *)
Definition present_coords (r : row) : bool :=
  notna (point_x r) && notna (point_y r).

Definition dropna_coords (l : loc) : app loc :=
  t <- frame l ;; new_frame (List.filter present_coords t).

(** [df[col] = values]: assignment into the object itself. *)
Definition setitem {A : Type} (upd : row -> A -> row) (l : loc) (vals : list A) : app unit :=
  t <- frame l ;; store_frame l (assign upd t vals).

(** ** Series helpers *)

(** [Series.dropna()] on a text column. *)
Fixpoint dropna {A : Type} (s : list (option A)) : list A :=
  match s with
  | [] => []
  | Some a :: s' => a :: dropna s'
  | None :: s' => dropna s'
  end.

Definition mem_string (x : string) (l : list string) : bool :=
  existsb (String.eqb x) l.

(** [Series.unique()]: distinct values in order of first appearance. *)
Definition unique (s : list string) : list string :=
  fold_left (fun seen x => if mem_string x seen then seen else (seen ++ [x])%list) s [].

(** [sorted(...)] on strings. *)
Fixpoint insert_sorted (x : string) (l : list string) : list string :=
  match l with
  | [] => [x]
  | y :: l' => if String.leb x y then x :: l else y :: insert_sorted x l'
  end.

Definition sorted (l : list string) : list string :=
  fold_right insert_sorted [] l.

(** One more occurrence of [k] in a tally kept in order of first
    appearance. *)
Fixpoint tally (k : string) (acc : list (string * nat)) : list (string * nat) :=
  match acc with
  | [] => [(k, 1%nat)]
  | (k', n) :: acc' =>
      if String.eqb k' k then (k', S n) :: acc' else (k', n) :: tally k acc'
  end.

Definition tallies (s : list (option string)) : list (string * nat) :=
  fold_left (fun acc k => tally k acc) (dropna s) [].

(** Ordering of a counts Series: larger counts first; among equal counts
    the value met first comes first. *)
Fixpoint insert_count (e : string * nat) (l : list (string * nat)) : list (string * nat) :=
  match l with
  | [] => [e]
  | e' :: l' =>
      if (snd e' <=? snd e)%nat then e :: l else e' :: insert_count e l'
  end.

Definition sort_counts (l : list (string * nat)) : list (string * nat) :=
  fold_right insert_count [] l.

(** [Series.value_counts()]: occurrences of each present value, most
    frequent first; missing cells are not counted. *)
Definition value_counts (s : list (option string)) : list (string * nat) :=
  sort_counts (tallies s).

(** ** The program *)

(** A cell of a column as [read_csv] delivers it: a number (NaN for an
    empty field) or, in a column that is not all numeric, text. *)
Inductive cell : Type :=
| CNum (x : num)
| CStr (s : string).

Record csv_row : Type := mkCsvRow {
  csv_spp_com : option string;
  csv_dbh : cell;
  csv_point_x : cell;
  csv_point_y : cell;
  csv_neighborhood : option string;
  csv_park : option string
}.

(** [pd.to_numeric] applied to a Series that is already float64 returns its
    values. *)
Definition to_numeric (s : list num) : list num := s.

Inductive page : Type :=
| TreesByNeighborhood
| MapOfTreesInParks
| TreeDiameterFilter.

(** What the user does with the widgets: the view picked in the sidebar, the
    entry picked in a select box given its options, and the two ends picked
    on a range slider given its bounds. *)
Record widgets : Type := mkWidgets {
  radio : page;
  selectbox : string -> list string -> option string;
  slider : string -> Z -> Z -> Z * Z
}.

(** A select box returns one of its options, and [None] when it has none. *)
Definition selectbox_ok (w : widgets) : Prop :=
  forall label options,
    match options with
    | [] => selectbox w label options = None
    | _ => exists x, selectbox w label options = Some x /\ In x options
    end.

(** A range slider returns an ordered pair within its bounds. *)
Definition slider_ok (w : widgets) : Prop :=
  forall label lo hi, lo <= hi ->
    lo <= fst (slider w label lo hi) <= snd (slider w label lo hi) /\
    snd (slider w label lo hi) <= hi.

(** The largest integer [st.slider] accepts as a bound, JavaScript's
    [Number.MAX_SAFE_INTEGER]; the smallest is its opposite. *)
Definition max_safe_integer : Z := 2 ^ 53 - 1.

Definition safe_integer (z : Z) : bool :=
  ((- max_safe_integer <=? z) && (z <=? max_safe_integer))%Z.

(** [st.slider] with integer bounds raises StreamlitAPIException unless
    [min_value] is below [max_value] and both are safe integers. *)
Definition slider_accepts (min_value max_value : Z) : bool :=
  (min_value <? max_value)%Z && safe_integer min_value && safe_integer max_value.

(** The call [st.slider(label, min_value=lo, max_value=hi, value=(lo, hi))]:
    either the bounds are rejected and the call raises, showing nothing, or
    the slider is shown and the range the user picked is returned. *)
Definition range_slider (w : widgets) (label : string) (min_value max_value : Z)
  : app (Z * Z) :=
  if slider_accepts min_value max_value
  then emit (st_slider label min_value max_value) ;;
       ret (slider w label min_value max_value)
  else raise StreamlitAPIException.

Fixpoint for_each {A : Type} (l : list A) (body : A -> app unit) : app unit :=
  match l with
  | [] => ret tt
  | a :: l' => body a ;; for_each l' body
  end.

Fixpoint enumerate_from {A : Type} (i : nat) (l : list A) : list (nat * A) :=
  match l with
  | [] => []
  | a :: l' => (i, a) :: enumerate_from (S i) l'
  end.

Definition enumerate {A : Type} (l : list A) : list (nat * A) := enumerate_from 0 l.

Definition filter_trees_by_dbh (df : loc) (min_dbh max_dbh : num) : app loc :=
  getitem_mask df (fun r => num_leb min_dbh (dbh r) && num_leb (dbh r) max_dbh).

Definition neighborhood_tree_counts (df : loc) (nb : option string)
  : app (list (string * nat) * nat) :=
  nb_data <- getitem_mask df (fun r => eq_text (neighborhood r) nb) ;;
  spp <- column spp_com nb_data ;;
  rows <- frame nb_data ;;
  ret (value_counts spp, length rows).

Definition display_bar_chart (series_counts : list (string * nat)) (title : text)
    (top_n : nat) : app unit :=
  let top_series := firstn top_n series_counts in
  let color_list := map (fun i => i mod 20)%nat (seq 0 (length top_series)) in
  emit (st_pyplot (BarFigure (map fst top_series) (map snd top_series) color_list
                             (map fst top_series) "Number of Trees" title)) ;;
  emit (st_subheader [Lit "Top 10 Species by Count"]) ;;
  let top_10 := firstn 10 top_series in
  for_each top_10 (fun '(species, count) =>
    emit (st_write [FStr (Some species); Lit ": "; FInt (Z.of_nat count)])).

Definition colors : list rgb :=
  [ [255; 0; 0]; [0; 0; 255]; [0; 128; 0]; [255; 165; 0]; [128; 0; 128];
    [165; 42; 42]; [255; 192; 203]; [0; 255; 255]; [255; 255; 0]; [0; 0; 0] ].

Definition gray : rgb := [169; 169; 169].

(** [{s: colors[i] for i, s in enumerate(top_species)}]; at most ten species
    are enumerated, so every index is within [colors]. *)
Definition make_color_map (top_species : list string) : gmap string rgb :=
  fold_left (fun m '(s, c) => <[s := c]> m) (zip top_species colors) ∅.

Definition valid_coords (r : row) : bool :=
  between (of_Z (-180)) (of_Z 180) (point_x r) && between (of_Z (-90)) (of_Z 90) (point_y r).

Definition build_pydeck_map (df_points : loc) : app unit :=
  df_points <- dropna_coords df_points ;;
  df_points <- getitem_mask df_points valid_coords ;;
  rows <- frame df_points ;;
  match rows with
  | [] => emit (st_info [Lit "No valid coordinate data to display."])
  | _ :: _ =>
    xs <- column point_x df_points ;;
    setitem set_point_x df_points (to_numeric xs) ;;
    ys <- column point_y df_points ;;
    setitem set_point_y df_points (to_numeric ys) ;;
    ds <- column dbh df_points ;;
    setitem set_dbh df_points (to_numeric (map (fillna (of_Z 5)) ds)) ;;
    spp <- column spp_com df_points ;;
    setitem set_spp_com df_points (map (fun v => Some (default "Unknown" v)) spp) ;;
    spp <- column spp_com df_points ;;
    let top_species := map fst (firstn 10 (value_counts spp)) in
    let color_map := make_color_map top_species in
    spp <- column spp_com df_points ;;
    setitem set_color df_points
      (map (fun v => match v with
                     | Some s => default gray (color_map !! s)
                     | None => gray
                     end) spp) ;;
    data <- frame df_points ;;
    ' (center_lat, center_lon) <-
      match data with
      | _ :: _ =>
        ys <- column point_y df_points ;;
        xs <- column point_x df_points ;;
        ret (series_mean ys, series_mean xs)
      | [] => ret (Fin (423601 # 10000), Fin (-710589 # 10000))
      end ;;
    emit (st_pydeck_chart (mkDeck data center_lat center_lon)) ;;
    emit (st_subheader [Lit "Legend: Top 10 Species"]) ;;
    for_each (enumerate top_species) (fun '(i, species) =>
      match color_map !! species with
      | None => raise KeyError
      | Some c => emit (st_markdown (i mod 2)%nat [FHex c; FStr (Some species)])
      end)
  end.

Definition plot_pie (series_counts : list (string * nat)) (title : text) : app unit :=
  emit (st_pyplot (PieFigure (map snd series_counts) (map fst series_counts) title)).

Section Loading.

(** The numeric-literal reader behind [pd.to_numeric]: the number a text
    denotes, if it denotes one. *)
Variable str_to_num : string -> option num.

(** [pd.to_numeric(..., errors='coerce')] on one cell. *)
Definition to_numeric_coerce (c : cell) : num :=
  match c with
  | CNum x => x
  | CStr s => match str_to_num s with Some x => x | None => NaN end
  end.

Definition coerce_row (r : csv_row) : row :=
  mkRow (csv_spp_com r)
        (to_numeric_coerce (csv_dbh r))
        (to_numeric_coerce (csv_point_x r))
        (to_numeric_coerce (csv_point_y r))
        (csv_neighborhood r) (csv_park r) None.

(** [load_data]: the frame read from the file has its three numeric columns
    coerced; the caller receives its own DataFrame object. *)
Definition load_data (csv : list csv_row) : app loc :=
  new_frame (map coerce_row csv).

End Loading.

(** The three branches of [main], one per view. *)

(** Page 1, "Trees by Neighborhood". *)
Definition page_neighborhood (df : loc) (w : widgets) : app unit :=
  emit (st_header [Lit "Trees by Neighborhood"]) ;;
  nbs <- column neighborhood df ;;
  let neighborhoods := sorted (unique (dropna nbs)) in
  emit (st_selectbox "Select a neighborhood:" neighborhoods) ;;
  let selected_nb := selectbox w "Select a neighborhood:" neighborhoods in
  ' (counts, total) <- neighborhood_tree_counts df selected_nb ;;
  emit (st_write [Lit "Total trees in "; FStr selected_nb; Lit ": "; FInt (Z.of_nat total)]) ;;
  display_bar_chart counts [Lit "Top 30 Tree Species in "; FStr selected_nb] 30.

(** Page 2, "Map of Trees in Parks". *)
Definition page_parks (df : loc) (w : widgets) : app unit :=
  emit (st_header [Lit "Map of Trees in Parks"]) ;;
  ps <- column park df ;;
  let parks := sorted (unique (dropna ps)) in
  emit (st_selectbox "Choose a park:" parks) ;;
  let selected_park := selectbox w "Choose a park:" parks in
  park_data <- getitem_mask df (fun r => eq_text (park r) selected_park) ;;
  rows <- frame park_data ;;
  emit (st_write [Lit "Total trees in "; FStr selected_park; Lit ": ";
                  FInt (Z.of_nat (length rows))]) ;;
  build_pydeck_map park_data.

(** Page 3, "Tree Diameter Filter". *)
Definition page_diameter (df : loc) (w : widgets) : app unit :=
  emit (st_header [Lit "Filter Trees by Diameter"]) ;;
  ds <- column dbh df ;;
  min_dbh <- lift (py_int (series_min ds)) ;;
  ds <- column dbh df ;;
  max_dbh <- lift (py_int (series_max ds)) ;;
  selected_range <- range_slider w "Select diameter range (in inches):" min_dbh max_dbh ;;
  filtered <- filter_trees_by_dbh df (of_Z (fst selected_range)) (of_Z (snd selected_range)) ;;
  rows <- frame filtered ;;
  emit (st_write [Lit "Total trees in selected range: "; FInt (Z.of_nat (length rows))]) ;;
  spp <- column spp_com filtered ;;
  let counts := value_counts spp in
  match counts with
  | _ :: _ =>
    plot_pie counts [Lit "Species Distribution for DBH "; FInt (fst selected_range);
                     Lit "–"; FInt (snd selected_range)]
  | [] => emit (st_write [Lit "No trees found in this diameter range."])
  end.

(** The body of [main] once the table is loaded. *)
Definition render (df : loc) (w : widgets) : app unit :=
  emit (st_title [Lit "Boston Trees Explorer"]) ;;
  match radio w with
  | TreesByNeighborhood => page_neighborhood df w
  | MapOfTreesInParks => page_parks df w
  | TreeDiameterFilter => page_diameter df w
  end ;;
  emit (st_write [Lit "---"]) ;;
  emit (st_caption [Lit "Created for CS230 by Olivia Pusczko — Boston Trees Explorer"]).

(** [main], given the reader used by the loader, the content of
    [bprd_trees.csv] and the user. *)
Definition main (str_to_num : string -> option num) (csv : list csv_row) (w : widgets)
  : app unit :=
  df <- load_data str_to_num csv ;;
  render df w.

Definition empty_session : session := mkSession ∅ [].

(** ** The views as functions of the table

    What each view puts on the screen, written as a function of the rows
    of the loaded table and of the widgets.  The run lemmas below show that
    the program computes exactly these. *)

Definition in_dbh_range (a b : num) (r : row) : bool :=
  num_leb a (dbh r) && num_leb (dbh r) b.

Definition fill_row (r : row) : row :=
  set_spp_com (set_dbh r (fillna (of_Z 5) (dbh r)))
              (Some (default "Unknown" (spp_com r))).

Definition top_species_of (filled : table) : list string :=
  map fst (firstn 10 (value_counts (map spp_com filled))).

Definition paint (color_map : gmap string rgb) (r : row) : row :=
  set_color r (match spp_com r with
               | Some s => default gray (color_map !! s)
               | None => gray
               end).

Definition layer_rows (pts : table) : table :=
  let filled := map fill_row pts in
  map (paint (make_color_map (top_species_of filled))) filled.

Definition legend (top_species : list string) : list event :=
  map (fun '(i, species) =>
         st_markdown (i mod 2)%nat
           [FHex (default gray (make_color_map top_species !! species));
            FStr (Some species)])
      (enumerate top_species).

Definition map_points (t : table) : table :=
  List.filter valid_coords (List.filter present_coords t).

Definition map_events (t : table) : list event :=
  match map_points t with
  | [] => [st_info [Lit "No valid coordinate data to display."]]
  | pts =>
    let data := layer_rows pts in
    st_pydeck_chart (mkDeck data (series_mean (map point_y data))
                                 (series_mean (map point_x data)))
    :: st_subheader [Lit "Legend: Top 10 Species"]
    :: legend (top_species_of (map fill_row pts))
  end.

Definition bar_events (series_counts : list (string * nat)) (title : text) (top_n : nat)
  : list event :=
  let top_series := firstn top_n series_counts in
  st_pyplot (BarFigure (map fst top_series) (map snd top_series)
               (map (fun i => i mod 20)%nat (seq 0 (length top_series)))
               (map fst top_series) "Number of Trees" title)
  :: st_subheader [Lit "Top 10 Species by Count"]
  :: map (fun '(species, count) =>
            st_write [FStr (Some species); Lit ": "; FInt (Z.of_nat count)])
         (firstn 10 top_series).

Definition options_of (col : list (option string)) : list string :=
  sorted (unique (dropna col)).

Definition rows_of_neighborhood (nb : option string) (t : table) : table :=
  List.filter (fun r => eq_text (neighborhood r) nb) t.

Definition rows_of_park (p : option string) (t : table) : table :=
  List.filter (fun r => eq_text (park r) p) t.

Definition neighborhood_events (t : table) (w : widgets) : list event :=
  let neighborhoods := options_of (map neighborhood t) in
  let selected_nb := selectbox w "Select a neighborhood:" neighborhoods in
  let nb_data := rows_of_neighborhood selected_nb t in
  [ st_header [Lit "Trees by Neighborhood"];
    st_selectbox "Select a neighborhood:" neighborhoods;
    st_write [Lit "Total trees in "; FStr selected_nb; Lit ": ";
              FInt (Z.of_nat (length nb_data))] ]
  ++ bar_events (value_counts (map spp_com nb_data))
                [Lit "Top 30 Tree Species in "; FStr selected_nb] 30.

Definition parks_events (t : table) (w : widgets) : list event :=
  let parks := options_of (map park t) in
  let selected_park := selectbox w "Choose a park:" parks in
  let park_data := rows_of_park selected_park t in
  [ st_header [Lit "Map of Trees in Parks"];
    st_selectbox "Choose a park:" parks;
    st_write [Lit "Total trees in "; FStr selected_park; Lit ": ";
              FInt (Z.of_nat (length park_data))] ]
  ++ map_events park_data.

(** The slider bounds of the diameter view: [int] of the smallest and of the
    largest dbh. *)
Definition slider_bounds (t : table) : exn + Z * Z :=
  match py_int (series_min (map dbh t)) with
  | inl e => inl e
  | inr lo =>
    match py_int (series_max (map dbh t)) with
    | inl e => inl e
    | inr hi => inr (lo, hi)
    end
  end.

Definition selected_rows (t : table) (range : Z * Z) : table :=
  List.filter (in_dbh_range (of_Z (fst range)) (of_Z (snd range))) t.

(** How the diameter view ends: with the exception of an [int] conversion,
    with the slider's exception, or normally. *)
Definition diameter_result (t : table) : exn + unit :=
  match slider_bounds t with
  | inl e => inl e
  | inr (lo, hi) => if slider_accepts lo hi then inr tt else inl StreamlitAPIException
  end.

Definition diameter_events (t : table) (w : widgets) : list event :=
  st_header [Lit "Filter Trees by Diameter"] ::
  match slider_bounds t with
  | inl _ => []
  | inr (lo, hi) =>
    if slider_accepts lo hi then
      let selected_range := slider w "Select diameter range (in inches):" lo hi in
      let filtered := selected_rows t selected_range in
      [ st_slider "Select diameter range (in inches):" lo hi;
        st_write [Lit "Total trees in selected range: "; FInt (Z.of_nat (length filtered))];
        match value_counts (map spp_com filtered) with
        | [] => st_write [Lit "No trees found in this diameter range."]
        | counts =>
          st_pyplot (PieFigure (map snd counts) (map fst counts)
                       [Lit "Species Distribution for DBH "; FInt (fst selected_range);
                        Lit "–"; FInt (snd selected_range)])
        end ]
    else []
  end.

Definition page_events (t : table) (w : widgets) : list event :=
  match radio w with
  | TreesByNeighborhood => neighborhood_events t w
  | MapOfTreesInParks => parks_events t w
  | TreeDiameterFilter => diameter_events t w
  end.

Definition page_result (t : table) (w : widgets) : exn + unit :=
  match radio w with
  | TreeDiameterFilter => diameter_result t
  | _ => inr tt
  end.

Definition closing_events : list event :=
  [ st_write [Lit "---"];
    st_caption [Lit "Created for CS230 by Olivia Pusczko — Boston Trees Explorer"] ].

Definition render_events (t : table) (w : widgets) : list event :=
  st_title [Lit "Boston Trees Explorer"] :: page_events t w ++
  match page_result t w with inl _ => [] | inr _ => closing_events end.

(** Every DataFrame of the first store is still there, unchanged, in the
    second. *)
Definition preserved (h h' : gmap loc table) : Prop :=
  forall l t, h !! l = Some t -> h' !! l = Some t.

(** A chart or a map on the screen. *)
Definition is_rendering (e : event) : bool :=
  match e with
  | st_pyplot _ | st_pydeck_chart _ => true
  | _ => false
  end.

(** Number of rows satisfying a test. *)
Definition count_rows (p : row -> bool) (t : table) : nat :=
  length (List.filter p t).

Definition sum_counts (c : list (string * nat)) : nat :=
  fold_right (fun e acc => (snd e + acc)%nat) 0%nat c.

Definition occurrences (sp : string) (col : list (option string)) : nat :=
  length (List.filter (fun v => eq_text v (Some sp)) col).

(** A position a map can show: both coordinates present and finite,
    longitude within [-180, 180] and latitude within [-90, 90]. *)
Definition valid_position (r : row) : Prop :=
  exists x y : Q,
    point_x r = Fin x /\ point_y r = Fin y /\
    (-180 # 1 <= x)%Q /\ (x <= 180 # 1)%Q /\ (-90 # 1 <= y)%Q /\ (y <= 90 # 1)%Q.

(** How a row of the layer relates to the row of the table it comes
    from. *)
Definition shown_as (r r' : row) : Prop :=
  point_x r' = point_x r /\ point_y r' = point_y r /\
  neighborhood r' = neighborhood r /\ park r' = park r /\
  dbh r' = fillna (of_Z 5) (dbh r) /\
  spp_com r' = Some (default "Unknown" (spp_com r)).

(** The count recorded for [sp] in a counts Series (0 when absent). *)
Definition count_of (sp : string) (c : list (string * nat)) : nat :=
  sum_counts (List.filter (fun e => String.eqb (fst e) sp) c).

(** Occurrences of [sp] in a list of present values. *)
Definition hits (sp : string) (l : list string) : nat :=
  length (List.filter (fun k => String.eqb k sp) l).

(** Larger counts first. *)
Definition count_ge (a b : string * nat) : Prop := (snd b <= snd a)%nat.

(** How a loaded numeric cell relates to the cell read from the file: a
    number is kept, text that denotes a number becomes that number, any
    other text becomes the missing value. *)
Definition coerced (str_to_num : string -> option num) (c : cell) (x : num) : Prop :=
  match c with
  | CNum v => x = v
  | CStr txt =>
    match str_to_num txt with
    | Some v => x = v
    | None => x = NaN
    end
  end.

(** How the map view fills the gaps of a row. *)
Definition filled_as (r r' : row) : Prop :=
  (dbh r = NaN -> dbh r' = of_Z 5) /\
  (dbh r <> NaN -> dbh r' = dbh r) /\
  (spp_com r = None -> spp_com r' = Some "Unknown") /\
  (forall sp, spp_com r = Some sp -> spp_com r' = Some sp).

(** ** Sample data *)

(** A user who keeps every widget at its default: the first option of a
    select box, the full range of a slider. *)
Definition default_user (view : page) : widgets :=
  mkWidgets view (fun _ options => head options) (fun _ lo hi => (lo, hi)).

(** A reader of unsigned decimal integers, standing for the numeric-literal
    reader in examples. *)
Fixpoint read_digits (acc : N) (s : string) : option N :=
  match s with
  | EmptyString => Some acc
  | String c s' =>
    let n := Ascii.N_of_ascii c in
    if ((48 <=? n) && (n <=? 57))%N then read_digits (acc * 10 + (n - 48)) s' else None
  end.

Definition read_unsigned (s : string) : option num :=
  match s with
  | EmptyString => None
  | _ => option_map (fun n => of_Z (Z.of_N n)) (read_digits 0 s)
  end.

Definition sample_table : table :=
  [ mkRow (Some "Oak") (Fin (21 # 2)) (Fin (-71 # 1)) (Fin (42 # 1)) (Some "Allston") (Some "Ringer") None;
    mkRow (Some "Elm") (Fin (3 # 1)) NaN (Fin (42 # 1)) (Some "Allston") (Some "Ringer") None;
    mkRow None NaN (Fin (-71 # 1)) (Fin (42 # 1)) (Some "Allston") (Some "Ringer") None;
    mkRow (Some "Elm") (Fin (3 # 1)) (Fin (-710 # 1)) (Fin (42 # 1)) (Some "Back Bay") (Some "Common") None;
    mkRow (Some "Elm") (Fin (7 # 2)) (Fin (-70 # 1)) (Fin (41 # 1)) (Some "Allston") (Some "Ringer") None ].

Definition sample_session : session := mkSession {[ 0%nat := sample_table ]} [].

Definition sample_csv : list csv_row :=
  [ mkCsvRow (Some "Oak") (CStr "12") (CNum (Fin (-71 # 1))) (CNum (Fin (42 # 1)))
             (Some "Allston") (Some "Ringer");
    mkCsvRow (Some "Elm") (CStr "unknown") (CNum NaN) (CStr "n/a")
             (Some "Allston") (Some "Ringer") ].

(** A table in which no row names a neighborhood or a park. *)
Definition unnamed_table : table :=
  [ mkRow (Some "Oak") (Fin (3 # 1)) (Fin (-71 # 1)) (Fin (42 # 1)) None None None ].

(** A table whose only diameter is infinite, as the CSV field [inf] loads. *)
Definition infinite_table : table :=
  [ mkRow (Some "Oak") PosInf (Fin (-71 # 1)) (Fin (42 # 1)) (Some "Allston") (Some "Ringer") None ].

(** Thirty-one trees of one neighborhood, each of its own species. *)
Definition orchard_table : table :=
  map (fun i => mkRow (Some (String (Ascii.ascii_of_nat (65 + i)) EmptyString))
                      (Fin (1 # 1)) NaN NaN (Some "Allston") None None)
      (seq 0 31).

(** A table whose two trees have a diameter and no species. *)
Definition nameless_table : table :=
  [ mkRow None (Fin (4 # 1)) (Fin (-71 # 1)) (Fin (42 # 1)) (Some "Allston") (Some "Ringer") None;
    mkRow None (Fin (6 # 1)) (Fin (-71 # 1)) (Fin (42 # 1)) (Some "Allston") (Some "Ringer") None ].

(** A user who narrows the diameter slider to the range from two to three
    above its lower bound (or to its upper bound, if that is nearer). *)
Definition narrow_user (view : page) : widgets :=
  mkWidgets view (fun _ options => head options)
            (fun _ lo hi => (Z.min hi (lo + 2), Z.min hi (lo + 3))).

(** A file whose dbh column holds no number. *)
Definition text_csv : list csv_row :=
  [ mkCsvRow (Some "Oak") (CStr "unknown") (CNum (Fin (-71 # 1))) (CNum (Fin (42 # 1)))
             (Some "Allston") (Some "Ringer");
    mkCsvRow (Some "Elm") (CStr "n/a") (CNum (Fin (-71 # 1))) (CNum (Fin (42 # 1)))
             (Some "Allston") (Some "Ringer") ].

(** * Proofs *)

(** ** The definitions on small inputs *)

Example py_int_truncates_toward_zero :
  py_int (Fin (21 # 2)) = inr 10 /\ py_int (Fin (-7 # 2)) = inr (-3) /\
  py_int NaN = inl ValueError /\ py_int NegInf = inl OverflowError.
Proof. repeat split. Qed.

Example series_min_skips_missing :
  series_min [NaN; Fin (7 # 2); Fin (3 # 1); NaN] = Fin (3 # 1) /\
  series_max [NaN; Fin (7 # 2); Fin (3 # 1); NaN] = Fin (7 # 2) /\
  series_min [NaN; NaN] = NaN.
Proof. repeat split. Qed.

Example value_counts_orders_by_count :
  value_counts [Some "Oak"; None; Some "Elm"; Some "Ash"; Some "Elm"] =
  [("Elm", 2%nat); ("Oak", 1%nat); ("Ash", 1%nat)].
Proof. reflexivity. Qed.

Example options_sorted_without_repeats :
  options_of [Some "Roxbury"; None; Some "Allston"; Some "Roxbury"] = ["Allston"; "Roxbury"].
Proof. reflexivity. Qed.

Example comparison_with_missing_is_false :
  num_leb NaN (of_Z 3) = false /\ num_leb (of_Z 3) NaN = false /\
  between (of_Z (-180)) (of_Z 180) PosInf = false /\
  between (of_Z (-90)) (of_Z 90) (Fin (-90 # 1)) = true.
Proof. repeat split. Qed.

(** ** The order on numbers *)

Lemma num_leb_le (a b : num) : num_leb a b = true <-> num_le a b.
Proof.
  split.
  - destruct a, b; simpl; intros H; try discriminate;
      try (constructor; congruence).
    constructor. now apply Qle_bool_iff.
  - intros H. destruct H as [b Hb | a Ha | p q Hpq].
    + destruct b; simpl; congruence.
    + destruct a; simpl; congruence.
    + simpl. now apply Qle_bool_iff.
Qed.

Lemma num_le_notna_l (a b : num) : num_le a b -> a <> NaN.
Proof. intros H. destruct H; congruence. Qed.

Lemma num_le_notna_r (a b : num) : num_le a b -> b <> NaN.
Proof. intros H. destruct H; congruence. Qed.

Lemma num_le_trans (a b c : num) : num_le a b -> num_le b c -> num_le a c.
Proof.
  intros Hab Hbc. destruct Hab; inversion Hbc; subst;
    try (constructor; congruence); try congruence.
  constructor. eapply Qle_trans; eassumption.
Qed.

Lemma in_dbh_range_le (a b : num) (r : row) :
  in_dbh_range a b r = true <-> num_le a (dbh r) /\ num_le (dbh r) b.
Proof.
  unfold in_dbh_range. rewrite andb_true_iff, !num_leb_le. tauto.
Qed.

(** ** Running the store operations *)

Lemma frame_run (s : session) (l : loc) (t : table) :
  frames s !! l = Some t -> frame l s = (inr t, s).
Proof. intros H. unfold frame. now rewrite H. Qed.

Lemma column_run {A : Type} (proj : row -> A) (s : session) (l : loc) (t : table) :
  frames s !! l = Some t -> column proj l s = (inr (map proj t), s).
Proof. intros H. unfold column, bind. now rewrite (frame_run _ _ _ H). Qed.

Lemma getitem_mask_run (s : session) (l : loc) (t : table) (mask : row -> bool) :
  frames s !! l = Some t ->
  getitem_mask l mask s =
    (inr (fresh (dom (frames s))),
     mkSession (<[fresh (dom (frames s)) := List.filter mask t]> (frames s)) (screen s)).
Proof. intros H. unfold getitem_mask, bind. now rewrite (frame_run _ _ _ H). Qed.

Lemma dropna_coords_run (s : session) (l : loc) (t : table) :
  frames s !! l = Some t ->
  dropna_coords l s =
    (inr (fresh (dom (frames s))),
     mkSession (<[fresh (dom (frames s)) := List.filter present_coords t]> (frames s))
               (screen s)).
Proof. intros H. unfold dropna_coords, bind. now rewrite (frame_run _ _ _ H). Qed.

Lemma setitem_run {A : Type} (upd : row -> A -> row) (h : gmap loc table)
    (scr : list event) (l : loc) (t : table) (vals : list A) :
  setitem upd l vals (mkSession (<[l := t]> h) scr) =
    (inr tt, mkSession (<[l := assign upd t vals]> h) scr).
Proof.
  unfold setitem, bind, frame, store_frame. simpl.
  rewrite lookup_insert_eq. simpl. now rewrite insert_insert_eq.
Qed.

Lemma fresh_lookup (h : gmap loc table) : h !! fresh (dom h) = None.
Proof. apply not_elem_of_dom. apply is_fresh. Qed.

Lemma preserved_refl (h : gmap loc table) : preserved h h.
Proof. intros l t H. exact H. Qed.

Lemma preserved_trans (h1 h2 h3 : gmap loc table) :
  preserved h1 h2 -> preserved h2 h3 -> preserved h1 h3.
Proof. intros H12 H23 l t H. apply H23, H12, H. Qed.

Lemma preserved_alloc (h : gmap loc table) (t : table) :
  preserved h (<[fresh (dom h) := t]> h).
Proof.
  intros l t' H. rewrite lookup_insert_ne; [exact H |].
  intros Heq. rewrite <- Heq, fresh_lookup in H. discriminate.
Qed.

Lemma assign_map {A : Type} (upd : row -> A -> row) (f : row -> A) (t : table) :
  assign upd t (map f t) = map (fun r => upd r (f r)) t.
Proof. induction t as [| r t IH]; simpl; [reflexivity | now rewrite IH]. Qed.

Lemma map_id_ext {A : Type} (f : A -> A) (l : list A) :
  (forall a, f a = a) -> map f l = l.
Proof. intros H. induction l as [| a l IH]; simpl; [reflexivity | now rewrite H, IH]. Qed.

Lemma filter_In_iff {A : Type} (p : A -> bool) (l : list A) (a : A) :
  In a (List.filter p l) <-> In a l /\ p a = true.
Proof. apply List.filter_In. Qed.

Lemma filter_ext_bool {A : Type} (p q : A -> bool) (l : list A) :
  (forall a, p a = q a) -> List.filter p l = List.filter q l.
Proof.
  intros H. induction l as [| a l IH]; simpl; [reflexivity |].
  now rewrite H, IH.
Qed.

(** ** Filtering by diameter *)

Lemma filter_trees_by_dbh_run (s : session) (df : loc) (t : table) (a b : num) :
  frames s !! df = Some t ->
  filter_trees_by_dbh df a b s =
    (inr (fresh (dom (frames s))),
     mkSession (<[fresh (dom (frames s)) := List.filter (in_dbh_range a b) t]> (frames s))
               (screen s)).
Proof. intros H. unfold filter_trees_by_dbh. now rewrite (getitem_mask_run _ _ _ _ H). Qed.

(** C1.  On every table and for every pair of bounds [a], [b],
    [filter_trees_by_dbh] returns a new DataFrame holding exactly the rows
    of the table whose dbh [d] satisfies [a <= d <= b]: a row is in the
    result if and only if it is in the table and in range, the rows keep
    their order and multiplicity, and no row of the result has a missing
    dbh. *)
Theorem filter_trees_by_dbh_range (s : session) (df : loc) (t : table) (a b : num) :
  frames s !! df = Some t ->
  exists (out : loc) (s' : session) (t' : table),
    filter_trees_by_dbh df a b s = (inr out, s') /\
    frames s' !! out = Some t' /\
    (forall r, In r t' <-> In r t /\ num_le a (dbh r) /\ num_le (dbh r) b) /\
    (forall r, In r t' -> dbh r <> NaN) /\
    (forall p : row -> bool,
        (forall r, p r = true <-> num_le a (dbh r) /\ num_le (dbh r) b) ->
        t' = List.filter p t).
Proof.
  intros H.
  exists (fresh (dom (frames s))),
    (mkSession (<[fresh (dom (frames s)) := List.filter (in_dbh_range a b) t]> (frames s))
               (screen s)),
    (List.filter (in_dbh_range a b) t).
  split; [now apply filter_trees_by_dbh_run |].
  split; [simpl; apply lookup_insert_eq |].
  split; [| split].
  - intros r. rewrite filter_In_iff, in_dbh_range_le. tauto.
  - intros r Hr. apply filter_In_iff in Hr. destruct Hr as [_ Hr].
    apply in_dbh_range_le in Hr. destruct Hr as [Hr _].
    eapply num_le_notna_r; eassumption.
  - intros p Hp. apply filter_ext_bool. intros r.
    destruct (p r) eqn:E.
    + apply Hp in E. now apply in_dbh_range_le.
    + destruct (in_dbh_range a b r) eqn:E'; [| reflexivity].
      apply in_dbh_range_le, Hp in E'. congruence.
Qed.

(** ** The map view *)

Lemma frame_run_insert (h : gmap loc table) (scr : list event) (l : loc) (t : table) :
  frame l (mkSession (<[l := t]> h) scr) = (inr t, mkSession (<[l := t]> h) scr).
Proof. apply frame_run. simpl. apply lookup_insert_eq. Qed.

Lemma column_run_insert {A : Type} (proj : row -> A) (h : gmap loc table)
    (scr : list event) (l : loc) (t : table) :
  column proj l (mkSession (<[l := t]> h) scr) =
    (inr (map proj t), mkSession (<[l := t]> h) scr).
Proof. apply column_run. simpl. apply lookup_insert_eq. Qed.

Lemma assign_point_x (t : table) :
  assign set_point_x t (to_numeric (map point_x t)) = t.
Proof.
  unfold to_numeric. rewrite assign_map. apply map_id_ext.
  intros r. now destruct r.
Qed.

Lemma assign_point_y (t : table) :
  assign set_point_y t (to_numeric (map point_y t)) = t.
Proof.
  unfold to_numeric. rewrite assign_map. apply map_id_ext.
  intros r. now destruct r.
Qed.

Lemma assign_fill (t : table) :
  let filled_dbh :=
    assign set_dbh t (to_numeric (map (fillna (of_Z 5)) (map dbh t))) in
  assign set_spp_com filled_dbh
    (map (fun v => Some (default "Unknown" v)) (map spp_com filled_dbh))
  = map fill_row t.
Proof.
  cbv zeta. unfold to_numeric.
  rewrite (List.map_map dbh), assign_map, (List.map_map spp_com), assign_map.
  rewrite List.map_map. reflexivity.
Qed.

Lemma assign_color (color_map : gmap string rgb) (t : table) :
  assign set_color t
    (map (fun v => match v with
                   | Some s => default gray (color_map !! s)
                   | None => gray
                   end) (map spp_com t))
  = map (paint color_map) t.
Proof. rewrite List.map_map, assign_map. reflexivity. Qed.

Lemma fold_insert_lookup (kvs : list (string * rgb)) (m : gmap string rgb) (k : string) :
  In k (map fst kvs) \/ is_Some (m !! k) ->
  is_Some (fold_left (fun m '(s, c) => <[s := c]> m) kvs m !! k).
Proof.
  revert m. induction kvs as [| [s c] kvs IH]; intros m H; simpl.
  - destruct H as [[] | H]. exact H.
  - apply IH. simpl in H. destruct H as [[-> | H] | H].
    + right. rewrite lookup_insert_eq. eauto.
    + now left.
    + right. destruct (decide (s = k)) as [-> | Hne].
      * rewrite lookup_insert_eq. eauto.
      * now rewrite lookup_insert_ne.
Qed.

Lemma make_color_map_lookup (top_species : list string) (sp : string) :
  (length top_species <= 10)%nat -> In sp top_species ->
  is_Some (make_color_map top_species !! sp).
Proof.
  intros Hlen Hin. unfold make_color_map. apply fold_insert_lookup. left.
  change (map fst (zip top_species colors)) with ((zip top_species colors).*1).
  rewrite fst_zip; [exact Hin | exact Hlen].
Qed.

Lemma top_species_length (filled : table) : (length (top_species_of filled) <= 10)%nat.
Proof.
  unfold top_species_of. rewrite List.length_map, List.length_firstn. lia.
Qed.

Lemma for_each_legend (color_map : gmap string rgb) (l : list (nat * string)) (s : session) :
  (forall i sp, In (i, sp) l -> is_Some (color_map !! sp)) ->
  for_each l (fun '(i, species) =>
      match color_map !! species with
      | None => raise KeyError
      | Some c => emit (st_markdown (i mod 2)%nat [FHex c; FStr (Some species)])
      end) s =
  (inr tt,
   mkSession (frames s)
     (screen s ++
      map (fun '(i, species) =>
             st_markdown (i mod 2)%nat
               [FHex (default gray (color_map !! species)); FStr (Some species)]) l)%list).
Proof.
  revert s. induction l as [| [i sp] l IH]; intros s H; simpl.
  - unfold ret. rewrite app_nil_r. now destruct s.
  - destruct (H i sp) as [c Hc]; [now left |].
    unfold bind. rewrite Hc. unfold emit at 1. rewrite IH.
    + simpl. now rewrite <- app_assoc.
    + intros j sp' Hin. apply (H j sp'). now right.
Qed.

Lemma enumerate_from_In {A : Type} (l : list A) (i j : nat) (a : A) :
  In (j, a) (enumerate_from i l) -> In a l.
Proof.
  revert i. induction l as [| b l IH]; intros i H; simpl in *; [exact H |].
  destruct H as [H | H]; [left; congruence | right; eauto].
Qed.

Lemma nonempty_case {A B : Type} (l : list A) (a b : B) :
  l <> [] -> match l with [] => b | _ :: _ => a end = a.
Proof. destruct l; [congruence | reflexivity]. Qed.

Lemma layer_rows_nonempty (pts : table) : pts <> [] -> layer_rows pts <> [].
Proof. destruct pts; [congruence | discriminate]. Qed.

Lemma build_pydeck_map_run (s : session) (l : loc) (t : table) :
  frames s !! l = Some t ->
  exists h' : gmap loc table,
    build_pydeck_map l s = (inr tt, mkSession h' (screen s ++ map_events t)%list) /\
    preserved (frames s) h'.
Proof.
  intros H. unfold build_pydeck_map.
  unfold bind at 1. rewrite (dropna_coords_run _ _ _ H).
  set (h1 := <[fresh (dom (frames s)) := List.filter present_coords t]> (frames s)).
  unfold bind at 1.
  rewrite (getitem_mask_run _ _ (List.filter present_coords t)) by apply lookup_insert_eq.
  cbn [frames screen]. fold h1. fold (map_points t).
  set (l2 := fresh (dom h1)).
  assert (Hpres : forall x, preserved (frames s) (<[l2 := x]> h1)).
  { intros x. eapply preserved_trans; apply preserved_alloc. }
  unfold bind at 1. rewrite frame_run_insert.
  unfold map_events.
  destruct (map_points t) as [| r0 pts'] eqn:E.
  - eexists. split; [reflexivity | apply Hpres].
  - assert (Hne : r0 :: pts' <> []) by discriminate.
    cbv iota. remember (r0 :: pts') as pts eqn:Epts. clear Epts E.
    unfold bind at 1. rewrite column_run_insert.
    unfold bind at 1. rewrite setitem_run, assign_point_x.
    unfold bind at 1. rewrite column_run_insert.
    unfold bind at 1. rewrite setitem_run, assign_point_y.
    unfold bind at 1. rewrite column_run_insert.
    unfold bind at 1. rewrite setitem_run.
    unfold bind at 1. rewrite column_run_insert.
    unfold bind at 1. rewrite setitem_run, assign_fill.
    unfold bind at 1. rewrite column_run_insert.
    fold (top_species_of (map fill_row pts)).
    set (tops := top_species_of (map fill_row pts)).
    unfold bind at 1. rewrite column_run_insert.
    unfold bind at 1. rewrite setitem_run, assign_color.
    fold (layer_rows pts). 
    unfold bind at 1. rewrite frame_run_insert.
    rewrite (nonempty_case (layer_rows pts)) by now apply layer_rows_nonempty.
    unfold bind at 1. unfold bind at 1. rewrite column_run_insert.
    unfold bind at 1. rewrite column_run_insert.
    unfold ret at 1. unfold bind at 1. unfold emit at 1.
    unfold bind at 1. unfold emit at 1. cbn [frames screen].
    rewrite for_each_legend.
    + cbn [frames screen]. eexists. split; [| apply Hpres].
      unfold legend. fold tops. rewrite <- !app_assoc. reflexivity.
    + intros i sp Hin. apply make_color_map_lookup.
      * apply top_species_length.
      * eapply enumerate_from_In, Hin.
Qed.

Lemma between_fin (lo hi : Z) (v : num) :
  between (of_Z lo) (of_Z hi) v = true <->
  exists q, v = Fin q /\ (inject_Z lo <= q)%Q /\ (q <= inject_Z hi)%Q.
Proof.
  unfold between, of_Z. rewrite andb_true_iff, !num_leb_le. split.
  - intros [H1 H2]. inversion H1; subst; inversion H2; subst. eauto.
  - intros (q & -> & H1 & H2). split; now constructor.
Qed.

Lemma valid_coords_position (r : row) : valid_coords r = true <-> valid_position r.
Proof.
  unfold valid_coords, valid_position. rewrite andb_true_iff, !between_fin. split.
  - intros [(x & Hx & Hx1 & Hx2) (y & Hy & Hy1 & Hy2)]. exists x, y. tauto.
  - intros (x & y & Hx & Hy & H1 & H2 & H3 & H4). split; eauto.
Qed.

Lemma valid_coords_present (r : row) : valid_coords r = true -> present_coords r = true.
Proof.
  intros H. apply valid_coords_position in H.
  destruct H as (x & y & Hx & Hy & _). unfold present_coords. now rewrite Hx, Hy.
Qed.

Lemma map_points_In (t : table) (r : row) :
  In r (map_points t) <-> In r t /\ valid_position r.
Proof.
  unfold map_points. rewrite !filter_In_iff, <- valid_coords_position. split.
  - tauto.
  - intros [H1 H2]. auto using valid_coords_present.
Qed.

Lemma map_points_filter (t : table) : map_points t = List.filter valid_coords t.
Proof.
  unfold map_points. induction t as [| r t IH]; simpl; [reflexivity |].
  destruct (valid_coords r) eqn:E.
  - rewrite (valid_coords_present _ E). simpl. now rewrite E, IH.
  - destruct (present_coords r); simpl; [now rewrite E |]; exact IH.
Qed.

Lemma layer_rows_shown (pts : table) : Forall2 shown_as pts (layer_rows pts).
Proof.
  unfold layer_rows. generalize (make_color_map (top_species_of (map fill_row pts))).
  intros cm. induction pts as [| r pts IH]; simpl; constructor; [| exact IH].
  unfold shown_as. now destruct r.
Qed.

Lemma legend_no_chart (tops : list string) (d : deck) :
  ~ In (st_pydeck_chart d) (legend tops).
Proof.
  unfold legend. intros H. apply in_map_iff in H.
  destruct H as ([i sp] & H & _). discriminate.
Qed.

Lemma map_events_chart (t : table) (d : deck) :
  In (st_pydeck_chart d) (map_events t) ->
  map_points t <> [] /\ layer_data d = layer_rows (map_points t).
Proof.
  unfold map_events. destruct (map_points t) as [| r0 pts] eqn:E.
  - intros [H | []]. discriminate.
  - intros [H | [H | H]].
    + injection H as <-. split; [discriminate | reflexivity].
    + discriminate.
    + now apply legend_no_chart in H.
Qed.

Lemma Forall2_In_r {A B : Type} (R : A -> B -> Prop) (l : list A) (l' : list B) (b : B) :
  Forall2 R l l' -> In b l' -> exists a, In a l /\ R a b.
Proof.
  induction 1 as [| a b' l l' HR _ IH]; intros Hin; [destruct Hin |].
  destruct Hin as [-> | Hin].
  - exists a. split; [now left | exact HR].
  - destruct (IH Hin) as (a' & Ha & HR'). exists a'. split; [now right | exact HR'].
Qed.

(** C2.  Whatever table the map view receives, it returns normally, and
    every point of every layer it hands to the map has both coordinates
    present, the longitude within [-180, 180] and the latitude within
    [-90, 90].  The points of the layer are, in order, the rows of the table
    that have such a position: rows with a missing or out-of-range
    coordinate are left out. *)
Theorem build_pydeck_map_valid_points (s : session) (df_points : loc) (t : table) :
  frames s !! df_points = Some t ->
  exists (s' : session) (evs : list event),
    build_pydeck_map df_points s = (inr tt, s') /\
    screen s' = (screen s ++ evs)%list /\
    forall d, In (st_pydeck_chart d) evs ->
      Forall valid_position (layer_data d) /\
      exists pts : table,
        (forall r, In r pts <-> In r t /\ valid_position r) /\
        (forall p : row -> bool,
            (forall r, p r = true <-> valid_position r) -> pts = List.filter p t) /\
        Forall2 shown_as pts (layer_data d).
Proof.
  intros H. destruct (build_pydeck_map_run s df_points t H) as (h' & Hrun & _).
  eexists _, (map_events t). split; [exact Hrun |]. split; [reflexivity |].
  intros d Hd. apply map_events_chart in Hd. destruct Hd as [_ Hd]. rewrite Hd.
  pose proof (layer_rows_shown (map_points t)) as Hshown.
  split.
  - apply List.Forall_forall. intros r' Hr'.
    destruct (Forall2_In_r _ _ _ _ Hshown Hr') as (r & Hr & Hx & Hy & _).
    apply map_points_In in Hr. destruct Hr as [_ (x & y & Hpx & Hpy & Hb)].
    exists x, y. rewrite Hx, Hy. tauto.
  - exists (map_points t). split; [apply map_points_In |]. split; [| exact Hshown].
    intros p Hp. rewrite map_points_filter. apply filter_ext_bool. intros r.
    destruct (p r) eqn:E.
    + now apply Hp, valid_coords_position in E.
    + destruct (valid_coords r) eqn:E'; [| reflexivity].
      apply valid_coords_position, Hp in E'. congruence.
Qed.

(** ** Counting values *)

Lemma sum_counts_app (c1 c2 : list (string * nat)) :
  sum_counts (c1 ++ c2) = (sum_counts c1 + sum_counts c2)%nat.
Proof. induction c1 as [| e c1 IH]; simpl; [reflexivity | rewrite IH; lia]. Qed.

Lemma tally_count_of (sp k : string) (acc : list (string * nat)) :
  count_of sp (tally k acc) =
  (count_of sp acc + if String.eqb k sp then 1 else 0)%nat.
Proof.
  unfold count_of. induction acc as [| [k' n] acc IH]; simpl.
  - destruct (String.eqb k sp); reflexivity.
  - destruct (String.eqb k' k) eqn:E; simpl.
    + apply String.eqb_eq in E. subst k'.
      destruct (String.eqb k sp); simpl; lia.
    + destruct (String.eqb k' sp) eqn:E'; simpl; rewrite IH; [lia | reflexivity].
Qed.

Lemma tally_keys (x k : string) (acc : list (string * nat)) :
  In x (map fst (tally k acc)) <-> x = k \/ In x (map fst acc).
Proof.
  induction acc as [| [k' n] acc IH]; simpl.
  - intuition congruence.
  - destruct (String.eqb k' k) eqn:E; simpl.
    + apply String.eqb_eq in E. subst k'. intuition congruence.
    + rewrite IH. tauto.
Qed.

Lemma tally_NoDup (k : string) (acc : list (string * nat)) :
  List.NoDup (map fst acc) -> List.NoDup (map fst (tally k acc)).
Proof.
  induction acc as [| [k' n] acc IH]; simpl; intros H.
  - constructor; [intros [] | constructor].
  - inversion H as [| ? ? Hnin Hnd]; subst.
    destruct (String.eqb k' k) eqn:E; simpl.
    + now constructor.
    + constructor; [| now apply IH].
      rewrite tally_keys. intros [-> | Hin]; [| contradiction].
      now rewrite String.eqb_refl in E.
Qed.

Lemma tally_positive (k : string) (acc : list (string * nat)) :
  List.Forall (fun e => 0 < snd e)%nat acc ->
  List.Forall (fun e => 0 < snd e)%nat (tally k acc).
Proof.
  induction acc as [| [k' n] acc IH]; simpl; intros H.
  - constructor; [simpl; lia | constructor].
  - inversion H; subst. destruct (String.eqb k' k); constructor; simpl in *; auto; lia.
Qed.

Lemma tally_sum (k : string) (acc : list (string * nat)) :
  sum_counts (tally k acc) = S (sum_counts acc).
Proof.
  induction acc as [| [k' n] acc IH]; simpl; [reflexivity |].
  destruct (String.eqb k' k); simpl; [lia | rewrite IH; lia].
Qed.

Lemma fold_tally (l : list string) (acc : list (string * nat)) :
  let c := fold_left (fun acc k => tally k acc) l acc in
  (forall sp, count_of sp c = count_of sp acc + hits sp l)%nat /\
  (List.NoDup (map fst acc) -> List.NoDup (map fst c)) /\
  (List.Forall (fun e => 0 < snd e)%nat acc -> List.Forall (fun e => 0 < snd e)%nat c) /\
  sum_counts c = (sum_counts acc + length l)%nat.
Proof.
  cbv zeta. revert acc. induction l as [| k l IH]; intros acc; simpl.
  - unfold hits. simpl. repeat split; auto; lia.
  - destruct (IH (tally k acc)) as (Hc & Hn & Hp & Hs). repeat split.
    + intros sp. rewrite Hc, tally_count_of. unfold hits. simpl.
      destruct (String.eqb k sp); simpl; lia.
    + intros H. now apply Hn, tally_NoDup.
    + intros H. now apply Hp, tally_positive.
    + rewrite Hs, tally_sum. lia.
Qed.

Lemma occurrences_hits (sp : string) (col : list (option string)) :
  occurrences sp col = hits sp (dropna col).
Proof.
  unfold occurrences, hits. induction col as [| [k |] col IH]; simpl; auto.
  destruct (String.eqb k sp); simpl; now rewrite IH.
Qed.

Lemma count_of_entry (c : list (string * nat)) (sp : string) (n : nat) :
  List.NoDup (map fst c) -> In (sp, n) c -> count_of sp c = n.
Proof.
  unfold count_of. induction c as [| [k m] c IH]; simpl; intros Hnd Hin; [destruct Hin |].
  inversion Hnd as [| ? ? Hnin Hnd']; subst. destruct Hin as [Heq | Hin].
  - injection Heq as -> ->. rewrite String.eqb_refl. simpl.
    assert (Hz : forall c', ~ In sp (map fst c') ->
                 sum_counts (List.filter (fun e => String.eqb (fst e) sp) c') = 0%nat).
    { induction c' as [| [k' m'] c' IH']; simpl; intros Hn; [reflexivity |].
      destruct (String.eqb k' sp) eqn:E.
      - apply String.eqb_eq in E. tauto.
      - apply IH'. tauto. }
    rewrite Hz by exact Hnin. lia.
  - destruct (String.eqb k sp) eqn:E.
    + apply String.eqb_eq in E. subst k. exfalso. apply Hnin.
      apply in_map_iff. exists (sp, n). auto.
    + now apply IH.
Qed.

Lemma count_of_positive (c : list (string * nat)) (sp : string) :
  (0 < count_of sp c)%nat -> exists n, In (sp, n) c.
Proof.
  unfold count_of. induction c as [| [k m] c IH]; simpl; intros H; [lia |].
  destruct (String.eqb k sp) eqn:E.
  - apply String.eqb_eq in E. subst k. eauto.
  - destruct (IH H) as [n Hn]. eauto.
Qed.

Lemma insert_count_perm (e : string * nat) (l : list (string * nat)) :
  Permutation (insert_count e l) (e :: l).
Proof.
  induction l as [| e' l IH]; simpl; [reflexivity |].
  destruct (snd e' <=? snd e)%nat; [reflexivity |].
  rewrite IH. apply perm_swap.
Qed.

Lemma sort_counts_perm (l : list (string * nat)) : Permutation (sort_counts l) l.
Proof.
  unfold sort_counts. induction l as [| e l IH]; simpl; [reflexivity |].
  rewrite insert_count_perm. now constructor.
Qed.

Lemma insert_count_sorted (e : string * nat) (l : list (string * nat)) :
  Sorted count_ge l -> Sorted count_ge (insert_count e l).
Proof.
  induction l as [| a l IH]; simpl; intros H.
  - repeat constructor.
  - destruct (snd a <=? snd e)%nat eqn:E.
    + constructor; [exact H |]. constructor. apply Nat.leb_le in E. exact E.
    + apply Nat.leb_gt in E. inversion H as [| ? ? Hs Hhd]; subst.
      constructor; [now apply IH |].
      destruct l as [| b l]; simpl.
      * constructor. unfold count_ge. lia.
      * destruct (snd b <=? snd e)%nat; constructor.
        -- unfold count_ge. lia.
        -- now inversion Hhd.
Qed.

Lemma sort_counts_sorted (l : list (string * nat)) :
  StronglySorted count_ge (sort_counts l).
Proof.
  apply Sorted_StronglySorted.
  - intros a b c Hab Hbc. unfold count_ge in *. lia.
  - unfold sort_counts. induction l as [| e l IH]; simpl; [constructor |].
    now apply insert_count_sorted.
Qed.

Lemma sum_counts_perm (c c' : list (string * nat)) :
  Permutation c c' -> sum_counts c = sum_counts c'.
Proof. induction 1; simpl; lia. Qed.

(** What [value_counts] returns: one entry per value that occurs, carrying
    its number of occurrences, larger counts first. *)
Lemma value_counts_spec (col : list (option string)) :
  List.NoDup (map fst (value_counts col)) /\
  (forall sp n, In (sp, n) (value_counts col) <->
                (0 < n)%nat /\ n = occurrences sp col) /\
  sum_counts (value_counts col) = length (dropna col) /\
  StronglySorted count_ge (value_counts col).
Proof.
  unfold value_counts, tallies.
  destruct (fold_tally (dropna col) []) as (Hc & Hn & Hp & Hs).
  set (c := fold_left (fun acc k => tally k acc) (dropna col) []) in *.
  pose proof (sort_counts_perm c) as Hperm.
  assert (Hnd : List.NoDup (map fst c)) by (apply Hn; constructor).
  assert (Hpos : List.Forall (fun e => 0 < snd e)%nat c) by (apply Hp; constructor).
  assert (Hin : forall sp n, In (sp, n) c <-> (0 < n)%nat /\ n = occurrences sp col).
  { intros sp n. rewrite occurrences_hits.
    specialize (Hc sp). unfold count_of at 2 in Hc. simpl in Hc. split.
    - intros H. pose proof (count_of_entry c sp n Hnd H) as Hcnt.
      rewrite List.Forall_forall in Hpos. specialize (Hpos _ H). simpl in Hpos. lia.
    - intros [Hn0 ->]. rewrite <- Hc in *.
      destruct (count_of_positive c sp Hn0) as [m Hm].
      now rewrite (count_of_entry c sp m Hnd Hm). }
  split; [| split; [| split]].
  - eapply Permutation_NoDup; [| exact Hnd]. apply Permutation_map. now symmetry.
  - intros sp n. rewrite <- Hin. split; apply Permutation_in; [exact Hperm | now symmetry].
  - rewrite (sum_counts_perm _ _ Hperm), Hs. reflexivity.
  - apply sort_counts_sorted.
Qed.

(** ** Counting by neighborhood *)

Lemma neighborhood_tree_counts_run (s : session) (df : loc) (t : table) (nb : option string) :
  frames s !! df = Some t ->
  neighborhood_tree_counts df nb s =
    (inr (value_counts (map spp_com (rows_of_neighborhood nb t)),
          length (rows_of_neighborhood nb t)),
     mkSession (<[fresh (dom (frames s)) := rows_of_neighborhood nb t]> (frames s))
               (screen s)).
Proof.
  intros H. unfold neighborhood_tree_counts.
  unfold bind at 1. rewrite (getitem_mask_run _ _ _ _ H).
  fold (rows_of_neighborhood nb t).
  unfold bind at 1. rewrite column_run_insert.
  unfold bind at 1. rewrite frame_run_insert. reflexivity.
Qed.

Lemma eq_text_decide (c : option string) (n : string) :
  eq_text c (Some n) = bool_decide (c = Some n).
Proof.
  destruct (decide (c = Some n)) as [-> | Hne].
  - rewrite bool_decide_eq_true_2 by reflexivity. simpl. apply String.eqb_refl.
  - rewrite bool_decide_eq_false_2 by assumption.
    destruct c as [a |]; simpl; [| reflexivity].
    apply String.eqb_neq. congruence.
Qed.

Lemma occurrences_rows (p : row -> bool) (sp : string) (t : table) :
  occurrences sp (map spp_com (List.filter p t)) =
  count_rows (fun r => p r && bool_decide (spp_com r = Some sp)) t.
Proof.
  unfold occurrences, count_rows. induction t as [| r t IH]; simpl; [reflexivity |].
  destruct (p r); simpl; [| exact IH].
  rewrite eq_text_decide. destruct (bool_decide (spp_com r = Some sp)); simpl; now rewrite IH.
Qed.

Lemma dropna_rows (p : row -> bool) (t : table) :
  length (List.filter p t) =
  (length (dropna (map spp_com (List.filter p t))) +
   count_rows (fun r => p r && bool_decide (spp_com r = None)) t)%nat.
Proof.
  unfold count_rows. induction t as [| r t IH]; simpl; [reflexivity |].
  destruct (p r); simpl; [| exact IH].
  destruct (spp_com r) as [sp |]; simpl; rewrite IH; lia.
Qed.

(** C4.  For every table and every neighborhood [n],
    [neighborhood_tree_counts] returns a counts Series with exactly one
    entry per species that occurs among the rows whose neighborhood is [n],
    carrying the number of those rows with that species, together with a
    total equal to the number of rows whose neighborhood is [n]; rows of
    the neighborhood with a missing species are in the total and in no
    count, so the total is the sum of the counts plus their number. *)
Theorem neighborhood_tree_counts_group (s : session) (df : loc) (t : table) (n : string) :
  frames s !! df = Some t ->
  exists (counts : list (string * nat)) (total : nat) (s' : session),
    neighborhood_tree_counts df (Some n) s = (inr (counts, total), s') /\
    total = count_rows (fun r => bool_decide (neighborhood r = Some n)) t /\
    List.NoDup (map fst counts) /\
    (forall sp k,
        In (sp, k) counts <->
        (0 < k)%nat /\
        k = count_rows (fun r => bool_decide (neighborhood r = Some n) &&
                                 bool_decide (spp_com r = Some sp)) t) /\
    total =
      (sum_counts counts +
       count_rows (fun r => bool_decide (neighborhood r = Some n) &&
                            bool_decide (spp_com r = None)) t)%nat.
Proof.
  intros H. rewrite (neighborhood_tree_counts_run _ _ _ _ H).
  assert (Hrows : rows_of_neighborhood (Some n) t =
                  List.filter (fun r => bool_decide (neighborhood r = Some n)) t).
  { apply filter_ext_bool. intros r. apply eq_text_decide. }
  rewrite Hrows.
  destruct (value_counts_spec
              (map spp_com (List.filter (fun r => bool_decide (neighborhood r = Some n)) t)))
    as (Hnd & Hin & Hsum & _).
  eexists _, _, _. split; [reflexivity |].
  split; [reflexivity |]. split; [exact Hnd |]. split.
  - intros sp k. rewrite Hin, occurrences_rows. reflexivity.
  - rewrite Hsum. apply dropna_rows.
Qed.

(** ** Running the views *)

Lemma emit_run (e : event) (s : session) :
  emit e s = (inr tt, mkSession (frames s) (screen s ++ [e])%list).
Proof. reflexivity. Qed.

Lemma for_each_emit {A B : Type} (f : A -> B -> event) (l : list (A * B)) (s : session) :
  for_each l (fun '(a, b) => emit (f a b)) s =
  (inr tt, mkSession (frames s) (screen s ++ map (fun '(a, b) => f a b) l)%list).
Proof.
  revert s. induction l as [| [a b] l IH]; intros s; simpl.
  - unfold ret. rewrite app_nil_r. now destruct s.
  - unfold bind. rewrite emit_run, IH. simpl. now rewrite <- app_assoc.
Qed.

Lemma display_bar_chart_run (c : list (string * nat)) (title : text) (top_n : nat)
    (s : session) :
  display_bar_chart c title top_n s =
  (inr tt, mkSession (frames s) (screen s ++ bar_events c title top_n)%list).
Proof.
  unfold display_bar_chart, bar_events.
  unfold bind at 1. rewrite emit_run. unfold bind at 1. rewrite emit_run.
  rewrite for_each_emit. cbn [frames screen]. rewrite <- !app_assoc. reflexivity.
Qed.

Lemma page_neighborhood_run (s : session) (df : loc) (t : table) (w : widgets) :
  frames s !! df = Some t ->
  exists h' : gmap loc table,
    page_neighborhood df w s =
      (inr tt, mkSession h' (screen s ++ neighborhood_events t w)%list) /\
    preserved (frames s) h'.
Proof.
  intros H. unfold page_neighborhood, neighborhood_events.
  unfold bind at 1. rewrite emit_run.
  unfold bind at 1. rewrite (column_run _ _ _ t) by exact H.
  fold (options_of (map neighborhood t)).
  unfold bind at 1. rewrite emit_run.
  unfold bind at 1. rewrite (neighborhood_tree_counts_run _ _ t) by exact H.
  unfold bind at 1. rewrite emit_run.
  rewrite display_bar_chart_run. cbn [frames screen].
  eexists. split.
  - rewrite <- !app_assoc. reflexivity.
  - apply preserved_alloc.
Qed.

Lemma page_parks_run (s : session) (df : loc) (t : table) (w : widgets) :
  frames s !! df = Some t ->
  exists h' : gmap loc table,
    page_parks df w s = (inr tt, mkSession h' (screen s ++ parks_events t w)%list) /\
    preserved (frames s) h'.
Proof.
  intros H. unfold page_parks, parks_events.
  unfold bind at 1. rewrite emit_run.
  unfold bind at 1. rewrite (column_run _ _ _ t) by exact H.
  fold (options_of (map park t)).
  unfold bind at 1. rewrite emit_run.
  unfold bind at 1. rewrite (getitem_mask_run _ _ t) by exact H.
  cbn [frames screen].
  set (sel := selectbox w "Choose a park:" (options_of (map park t))).
  fold (rows_of_park sel t).
  unfold bind at 1. rewrite frame_run_insert.
  unfold bind at 1. rewrite emit_run. cbn [frames screen].
  match goal with
  | |- context [build_pydeck_map ?l ?s0] =>
    destruct (build_pydeck_map_run s0 l (rows_of_park sel t)) as (h' & Hrun & Hpres);
      [apply lookup_insert_eq |]
  end.
  rewrite Hrun. cbn [frames screen] in *. exists h'. split.
  - rewrite <- !app_assoc. reflexivity.
  - eapply preserved_trans; [apply preserved_alloc | exact Hpres].
Qed.

Lemma plot_pie_run (c : list (string * nat)) (title : text) (s : session) :
  plot_pie c title s =
  (inr tt, mkSession (frames s)
             (screen s ++ [st_pyplot (PieFigure (map snd c) (map fst c) title)])%list).
Proof. reflexivity. Qed.

Lemma range_slider_run (w : widgets) (label : string) (lo hi : Z) (s : session) :
  range_slider w label lo hi s =
    if slider_accepts lo hi
    then (inr (slider w label lo hi),
          mkSession (frames s) (screen s ++ [st_slider label lo hi])%list)
    else (inl StreamlitAPIException, s).
Proof. unfold range_slider. now destruct (slider_accepts lo hi). Qed.

Lemma slider_accepts_iff (lo hi : Z) :
  slider_accepts lo hi = true <->
  lo < hi /\ - max_safe_integer <= lo /\ hi <= max_safe_integer.
Proof.
  unfold slider_accepts, safe_integer.
  rewrite !andb_true_iff, Z.ltb_lt, !Z.leb_le. lia.
Qed.

Lemma page_diameter_run (s : session) (df : loc) (t : table) (w : widgets) :
  frames s !! df = Some t ->
  exists h' : gmap loc table,
    page_diameter df w s =
      (diameter_result t, mkSession h' (screen s ++ diameter_events t w)%list) /\
    preserved (frames s) h'.
Proof.
  intros H. unfold page_diameter, diameter_events, diameter_result, slider_bounds.
  unfold bind at 1. rewrite emit_run.
  unfold bind at 1. rewrite (column_run _ _ _ t) by exact H.
  unfold bind at 1. unfold lift at 1.
  destruct (py_int (series_min (map dbh t))) as [e | lo].
  { eexists. split; [reflexivity | apply preserved_refl]. }
  unfold bind at 1. rewrite (column_run _ _ _ t) by exact H.
  unfold bind at 1. unfold lift at 1.
  destruct (py_int (series_max (map dbh t))) as [e | hi].
  { eexists. split; [reflexivity | apply preserved_refl]. }
  unfold bind at 1. rewrite range_slider_run.
  destruct (slider_accepts lo hi).
  2: { eexists. split; [reflexivity | apply preserved_refl]. }
  set (sel := slider w "Select diameter range (in inches):" lo hi).
  unfold bind at 1. rewrite (filter_trees_by_dbh_run _ _ t) by exact H.
  cbn [frames screen]. fold (selected_rows t sel).
  unfold bind at 1. rewrite frame_run_insert.
  unfold bind at 1. rewrite emit_run. cbn [frames screen].
  unfold bind at 1. rewrite column_run_insert.
  destruct (value_counts (map spp_com (selected_rows t sel))) as [| e c].
  - rewrite emit_run. cbn [frames screen]. eexists. split.
    + rewrite <- !app_assoc. reflexivity.
    + apply preserved_alloc.
  - rewrite plot_pie_run. cbn [frames screen]. eexists. split.
    + rewrite <- !app_assoc. reflexivity.
    + apply preserved_alloc.
Qed.

Lemma render_run (s : session) (df : loc) (t : table) (w : widgets) :
  frames s !! df = Some t ->
  exists h' : gmap loc table,
    render df w s = (page_result t w, mkSession h' (screen s ++ render_events t w)%list) /\
    preserved (frames s) h'.
Proof.
  intros H. unfold render, render_events, page_result, page_events, closing_events.
  unfold bind at 1. rewrite emit_run. unfold bind at 1.
  destruct (radio w).
  - destruct (page_neighborhood_run (mkSession (frames s) (screen s ++ [st_title [Lit "Boston Trees Explorer"]])) df t w H)
      as (h' & Hrun & Hpres).
    rewrite Hrun. unfold bind. rewrite emit_run, emit_run. cbn [frames screen] in *.
    exists h'. split; [| exact Hpres]. rewrite <- !app_assoc. reflexivity.
  - destruct (page_parks_run (mkSession (frames s) (screen s ++ [st_title [Lit "Boston Trees Explorer"]])) df t w H)
      as (h' & Hrun & Hpres).
    rewrite Hrun. unfold bind. rewrite emit_run, emit_run. cbn [frames screen] in *.
    exists h'. split; [| exact Hpres]. rewrite <- !app_assoc. reflexivity.
  - destruct (page_diameter_run (mkSession (frames s) (screen s ++ [st_title [Lit "Boston Trees Explorer"]])) df t w H)
      as (h' & Hrun & Hpres).
    rewrite Hrun. cbn [frames screen] in *.
    destruct (diameter_result t) as [e | []].
    + exists h'. split; [| exact Hpres]. rewrite app_nil_r, <- !app_assoc. reflexivity.
    + unfold bind. rewrite emit_run, emit_run. cbn [frames screen].
      exists h'. split; [| exact Hpres]. rewrite <- !app_assoc. reflexivity.
Qed.

(** ** Empty selections *)

Lemma filter_none {A : Type} (p : A -> bool) (l : list A) :
  (forall a, In a l -> p a = false) -> List.filter p l = [].
Proof.
  induction l as [| a l IH]; simpl; intros H; [reflexivity |].
  rewrite (H a) by now left. apply IH. intros b Hb. apply H. now right.
Qed.

Lemma eq_text_false (c sel : option string) :
  (forall p, sel = Some p -> c <> Some p) -> eq_text c sel = false.
Proof.
  intros H. destruct c as [a |], sel as [b |]; simpl; try reflexivity.
  apply String.eqb_neq. intros ->. now apply (H b).
Qed.

Lemma dropna_In {A : Type} (col : list (option A)) (x : A) :
  In x (dropna col) <-> In (Some x) col.
Proof.
  induction col as [| [a |] col IH]; simpl.
  - tauto.
  - rewrite IH. intuition congruence.
  - rewrite IH. intuition congruence.
Qed.

Lemma mem_string_In (x : string) (l : list string) : mem_string x l = true <-> In x l.
Proof.
  unfold mem_string. rewrite existsb_exists. split.
  - intros (y & Hy & E). apply String.eqb_eq in E. now subst y.
  - intros Hx. exists x. split; [exact Hx | apply String.eqb_refl].
Qed.

Lemma unique_In (l : list string) (x : string) : In x (unique l) <-> In x l.
Proof.
  unfold unique.
  assert (Hgen : forall seen,
             In x (fold_left (fun seen y => if mem_string y seen then seen
                                            else (seen ++ [y])%list) l seen)
             <-> In x seen \/ In x l).
  { induction l as [| y l IH]; intros seen; simpl; [tauto |].
    rewrite IH. destruct (mem_string y seen) eqn:E.
    - apply mem_string_In in E. intuition congruence.
    - rewrite in_app_iff. simpl. tauto. }
  rewrite Hgen. simpl. tauto.
Qed.

Lemma insert_sorted_In (x y : string) (l : list string) :
  In x (insert_sorted y l) <-> x = y \/ In x l.
Proof.
  induction l as [| z l IH]; simpl; [intuition congruence |].
  destruct (String.leb y z); simpl; [intuition congruence |].
  rewrite IH. intuition congruence.
Qed.

Lemma sorted_In (l : list string) (x : string) : In x (sorted l) <-> In x l.
Proof.
  unfold sorted. induction l as [| y l IH]; simpl; [tauto |].
  rewrite insert_sorted_In, IH. intuition congruence.
Qed.

Lemma options_of_In (col : list (option string)) (x : string) :
  In x (options_of col) <-> In (Some x) col.
Proof. unfold options_of. now rewrite sorted_In, unique_In, dropna_In. Qed.

(** C3, as the program has it.  In the park map view, when the selected
    park matches no row, the screen shows "No valid coordinate data to
    display." and no chart or map; in the diameter view, when no row lies in
    the selected range, the screen shows "No trees found in this diameter
    range." and no chart or map, provided the slider could be shown (its
    lower bound below its upper bound, both safe integers; otherwise
    [st.slider] raises before any selection).  The neighborhood view makes
    no such test:
    its select box offers the neighborhoods present in the table, so a
    selected neighborhood always matches at least one row. *)
Theorem empty_selection_message (s : session) (df : loc) (t : table) (w : widgets) :
  frames s !! df = Some t ->
  exists (res : exn + unit) (s' : session) (evs : list event),
    render df w s = (res, s') /\
    screen s' = (screen s ++ evs)%list /\
    (radio w = MapOfTreesInParks ->
     (forall r p, In r t ->
        selectbox w "Choose a park:" (options_of (map park t)) = Some p ->
        park r <> Some p) ->
     In (st_info [Lit "No valid coordinate data to display."]) evs /\
     forallb (fun e => negb (is_rendering e)) evs = true) /\
    (radio w = TreeDiameterFilter ->
     forall lo hi,
     py_int (series_min (map dbh t)) = inr lo ->
     py_int (series_max (map dbh t)) = inr hi ->
     lo < hi -> - max_safe_integer <= lo -> hi <= max_safe_integer ->
     (forall r, In r t ->
        ~ (num_le (of_Z (fst (slider w "Select diameter range (in inches):" lo hi))) (dbh r) /\
           num_le (dbh r) (of_Z (snd (slider w "Select diameter range (in inches):" lo hi))))) ->
     res = inr tt /\
     In (st_slider "Select diameter range (in inches):" lo hi) evs /\
     In (st_write [Lit "Total trees in selected range: "; FInt 0]) evs /\
     In (st_write [Lit "No trees found in this diameter range."]) evs /\
     forallb (fun e => negb (is_rendering e)) evs = true) /\
    (radio w = TreesByNeighborhood -> selectbox_ok w ->
     forall n,
       selectbox w "Select a neighborhood:" (options_of (map neighborhood t)) = Some n ->
       exists r, In r t /\ neighborhood r = Some n).
Proof.
  intros H. destruct (render_run s df t w H) as (h' & Hrun & _).
  eexists _, _, (render_events t w). split; [exact Hrun |]. split; [reflexivity |].
  unfold render_events, page_result, page_events, closing_events.
  split; [| split].
  - intros Hpage Hnone. rewrite Hpage. unfold parks_events.
    assert (Hrows : rows_of_park
                      (selectbox w "Choose a park:" (options_of (map park t))) t = []).
    { apply filter_none. intros r Hr. apply eq_text_false.
      intros p Hp. now apply Hnone. }
    rewrite Hrows. simpl. split; [tauto | reflexivity].
  - intros Hpage lo hi Hlo Hhi Hlt Hsafe_lo Hsafe_hi Hnone.
    assert (Hb : slider_bounds t = inr (lo, hi)).
    { unfold slider_bounds. now rewrite Hlo, Hhi. }
    assert (Hacc : slider_accepts lo hi = true) by (apply slider_accepts_iff; auto).
    rewrite Hpage. unfold diameter_result, diameter_events. rewrite Hb, Hacc.
    assert (Hrows : selected_rows t
                      (slider w "Select diameter range (in inches):" lo hi) = []).
    { apply filter_none. intros r Hr.
      destruct (in_dbh_range _ _ r) eqn:E; [| reflexivity].
      apply in_dbh_range_le in E. now apply Hnone in E. }
    rewrite Hrows. simpl. split; [reflexivity |]. split; [tauto |].
    split; [tauto |]. split; [tauto | reflexivity].
  - intros _ Hw n Hsel.
    specialize (Hw "Select a neighborhood:" (options_of (map neighborhood t))).
    destruct (options_of (map neighborhood t)) as [| x options] eqn:E; [congruence |].
    destruct Hw as (y & Hy & Hin). rewrite <- E in Hin.
    assert (y = n) by congruence. subst y.
    apply options_of_In, in_map_iff in Hin. destruct Hin as (r & Hr & Hrt). eauto.
Qed.

Lemma default_user_selectbox_ok (view : page) : selectbox_ok (default_user view).
Proof. intros label [| x options]; simpl; [reflexivity |]. exists x. auto. Qed.

Lemma default_user_slider_ok (view : page) : slider_ok (default_user view).
Proof. intros label lo hi Hle. simpl. lia. Qed.

(** C3 fails in the neighborhood view.  On a table where no row names a
    neighborhood the select box has no option and returns [None]; the
    selection matches no row, and the view still draws its (empty) bar chart
    and shows no empty-state message. *)
Lemma neighborhood_view_draws_on_empty_selection :
  let w := default_user TreesByNeighborhood in
  let s := mkSession {[ 0%nat := unnamed_table ]} [] in
  selectbox_ok w /\
  rows_of_neighborhood
    (selectbox w "Select a neighborhood:" (options_of (map neighborhood unnamed_table)))
    unnamed_table = [] /\
  fst (render 0%nat w s) = inr tt /\
  screen (snd (render 0%nat w s)) =
    [ st_title [Lit "Boston Trees Explorer"];
      st_header [Lit "Trees by Neighborhood"];
      st_selectbox "Select a neighborhood:" [];
      st_write [Lit "Total trees in "; FStr None; Lit ": "; FInt 0];
      st_pyplot (BarFigure [] [] [] [] "Number of Trees"
                   [Lit "Top 30 Tree Species in "; FStr None]);
      st_subheader [Lit "Top 10 Species by Count"];
      st_write [Lit "---"];
      st_caption [Lit "Created for CS230 by Olivia Pusczko — Boston Trees Explorer"] ] /\
  existsb is_rendering (screen (snd (render 0%nat w s))) = true.
Proof.
  cbv zeta. split; [apply default_user_selectbox_ok |].
  split; [reflexivity |]. split; [| split]; vm_compute; reflexivity.
Qed.

(** ** Loading *)

Lemma load_data_run (str_to_num : string -> option num) (csv : list csv_row) (s : session) :
  load_data str_to_num csv s =
    (inr (fresh (dom (frames s))),
     mkSession (<[fresh (dom (frames s)) := map (coerce_row str_to_num) csv]> (frames s))
               (screen s)).
Proof. reflexivity. Qed.

Lemma to_numeric_coerce_coerced (str_to_num : string -> option num) (c : cell) :
  coerced str_to_num c (to_numeric_coerce str_to_num c).
Proof. destruct c as [v | txt]; simpl; [reflexivity |]. now destruct (str_to_num txt). Qed.

Lemma shown_filled (r r' : row) : shown_as r r' -> filled_as r r'.
Proof.
  intros (_ & _ & _ & _ & Hd & Hs). unfold filled_as. rewrite Hd, Hs.
  repeat split.
  - now intros ->.
  - intros Hne. destruct (dbh r); simpl; congruence.
  - now intros ->.
  - now intros sp ->.
Qed.

Lemma Forall2_impl_rel {A B : Type} (R R' : A -> B -> Prop) (l : list A) (l' : list B) :
  (forall a b, R a b -> R' a b) -> Forall2 R l l' -> Forall2 R' l l'.
Proof. intros HR H. induction H; constructor; auto. Qed.

Lemma Forall2_map_In {A B : Type} (P : A -> B -> Prop) (f : A -> B) (l : list A) :
  (forall a, In a l -> P a (f a)) -> Forall2 P l (map f l).
Proof.
  induction l as [| a l IH]; intros H; simpl; constructor.
  - apply H. now left.
  - apply IH. intros b Hb. apply H. now right.
Qed.

(** ** The loaded table is read-only *)

Lemma main_run (str_to_num : string -> option num) (csv : list csv_row) (w : widgets)
    (s : session) :
  let df := fresh (dom (frames s)) in
  let t := map (coerce_row str_to_num) csv in
  exists h' : gmap loc table,
    main str_to_num csv w s =
      (page_result t w, mkSession h' (screen s ++ render_events t w)%list) /\
    h' !! df = Some t /\
    preserved (frames s) h'.
Proof.
  cbv zeta. unfold main, bind. rewrite load_data_run.
  match goal with
  | |- context [render ?l w ?s0] =>
    destruct (render_run s0 l (map (coerce_row str_to_num) csv) w) as (h' & Hrun & Hpres);
      [apply lookup_insert_eq |]
  end.
  rewrite Hrun. cbn [frames screen] in *. exists h'. split; [reflexivity |]. split.
  - apply Hpres, lookup_insert_eq.
  - eapply preserved_trans; [apply preserved_alloc | exact Hpres].
Qed.

(** C6.  No interaction writes to the loaded table.  Whatever view is
    selected and whatever the widgets return, after [render] the DataFrame
    [df] holds the rows it held before, and so does every other DataFrame
    that existed before the call: the filtering, the coordinate drops, the
    fills and the added colour column all land in objects created during the
    call.  The same holds for a whole run of [main]: at its end the table it
    loaded is the coerced file content. *)
Theorem loaded_table_unchanged (s : session) (df : loc) (t : table) (w : widgets) :
  frames s !! df = Some t ->
  (frames (snd (render df w s)) !! df = Some t /\
   preserved (frames s) (frames (snd (render df w s)))) /\
  (forall a b, preserved (frames s) (frames (snd (filter_trees_by_dbh df a b s)))) /\
  (forall nb, preserved (frames s) (frames (snd (neighborhood_tree_counts df nb s)))) /\
  preserved (frames s) (frames (snd (build_pydeck_map df s))) /\
  (forall str_to_num csv,
      exists df',
        frames (snd (main str_to_num csv w s)) !! df' = Some (map (coerce_row str_to_num) csv) /\
        preserved (frames s) (frames (snd (main str_to_num csv w s)))).
Proof.
  intros H. repeat split.
  - destruct (render_run s df t w H) as (h' & -> & Hpres). simpl. now apply Hpres.
  - destruct (render_run s df t w H) as (h' & -> & Hpres). exact Hpres.
  - intros a b. rewrite (filter_trees_by_dbh_run _ _ _ _ _ H). apply preserved_alloc.
  - intros nb. rewrite (neighborhood_tree_counts_run _ _ _ _ H). apply preserved_alloc.
  - destruct (build_pydeck_map_run s df t H) as (h' & -> & Hpres). exact Hpres.
  - intros str_to_num csv.
    destruct (main_run str_to_num csv w s) as (h' & -> & Hdf & Hpres).
    eexists. split; [exact Hdf | exact Hpres].
Qed.

(** ** Determinism *)

(** C7.  What an interaction computes depends only on the rows of the
    table and on the widgets.  Two runs of [render] on the same rows with
    the same widgets, from any two sessions and through any two references,
    end the same way and put the same events on the screen; likewise the
    two queries return the same filtered rows, the same counts and the same
    total. *)
Theorem interaction_deterministic (s1 s2 : session) (df1 df2 : loc) (t : table)
    (w : widgets) :
  frames s1 !! df1 = Some t ->
  frames s2 !! df2 = Some t ->
  (exists (res : exn + unit) (evs : list event),
      fst (render df1 w s1) = res /\ fst (render df2 w s2) = res /\
      screen (snd (render df1 w s1)) = (screen s1 ++ evs)%list /\
      screen (snd (render df2 w s2)) = (screen s2 ++ evs)%list) /\
  (forall a b, exists (out1 out2 : loc) (s1' s2' : session) (rows : table),
      filter_trees_by_dbh df1 a b s1 = (inr out1, s1') /\
      filter_trees_by_dbh df2 a b s2 = (inr out2, s2') /\
      frames s1' !! out1 = Some rows /\ frames s2' !! out2 = Some rows) /\
  (forall nb, exists (counts : list (string * nat)) (total : nat),
      fst (neighborhood_tree_counts df1 nb s1) = inr (counts, total) /\
      fst (neighborhood_tree_counts df2 nb s2) = inr (counts, total)).
Proof.
  intros H1 H2. split; [| split].
  - destruct (render_run s1 df1 t w H1) as (h1 & -> & _).
    destruct (render_run s2 df2 t w H2) as (h2 & -> & _).
    exists (page_result t w), (render_events t w). simpl. auto.
  - intros a b. rewrite (filter_trees_by_dbh_run _ _ _ _ _ H1).
    rewrite (filter_trees_by_dbh_run _ _ _ _ _ H2).
    eexists _, _, _, _, _. split; [reflexivity |]. split; [reflexivity |].
    simpl. split; apply lookup_insert_eq.
  - intros nb. rewrite (neighborhood_tree_counts_run _ _ _ _ H1).
    rewrite (neighborhood_tree_counts_run _ _ _ _ H2).
    eexists _, _. split; reflexivity.
Qed.

(** ** Minimum, maximum and truncation *)

Lemma num_le_refl (x : num) : x <> NaN -> num_le x x.
Proof. destruct x; intros H; try congruence; constructor; try congruence. apply Qle_refl. Qed.

Lemma num_leb_total (a b : num) :
  a <> NaN -> b <> NaN -> num_leb a b = false -> num_le b a.
Proof.
  destruct a, b; simpl; intros Ha Hb H; try congruence; try (constructor; congruence).
  constructor. apply Qlt_le_weak, Qnot_le_lt. intros Hle.
  apply Qle_bool_iff in Hle. congruence.
Qed.

Lemma num_missing_or_present (a : num) : a = NaN \/ a <> NaN.
Proof. destruct a; [now left | right; discriminate ..]. Qed.

Lemma num_max_cases (a b : num) : num_max a b = a \/ num_max a b = b.
Proof. unfold num_max. destruct a, b; auto; destruct (num_leb _ _); auto. Qed.

Lemma num_min_cases (a b : num) : num_min a b = a \/ num_min a b = b.
Proof. unfold num_min. destruct a, b; auto; destruct (num_leb _ _); auto. Qed.

Lemma num_max_ub_l (a b : num) : a <> NaN -> num_le a (num_max a b).
Proof.
  intros Ha. unfold num_max. destruct (num_leb a b) eqn:E.
  - apply num_leb_le in E. destruct a, b; try congruence; try exact E; inversion E; congruence.
  - destruct a, b; try congruence; now apply num_le_refl.
Qed.

Lemma num_max_ub_r (a b x : num) : num_le x b -> num_le x (num_max a b).
Proof.
  intros Hx. pose proof (num_le_notna_r _ _ Hx) as Hb. unfold num_max.
  destruct (num_leb a b) eqn:E.
  - destruct a, b; try congruence; exact Hx.
  - destruct (num_missing_or_present a) as [-> | Ha].
    + destruct b; try congruence; exact Hx.
    + apply (num_le_trans x b).
      * exact Hx.
      * pose proof (num_leb_total a b Ha Hb E).
        destruct a, b; try congruence; assumption.
Qed.

Lemma num_min_lb_l (a b : num) : a <> NaN -> num_le (num_min a b) a.
Proof.
  intros Ha. unfold num_min. destruct (num_leb a b) eqn:E.
  - destruct a, b; try congruence; now apply num_le_refl.
  - destruct (num_missing_or_present b) as [-> | Hb].
    + destruct a; try congruence; now apply num_le_refl.
    + pose proof (num_leb_total a b Ha Hb E).
      destruct a, b; try congruence; assumption.
Qed.

Lemma num_min_lb_r (a b x : num) : num_le b x -> num_le (num_min a b) x.
Proof.
  intros Hx. pose proof (num_le_notna_l _ _ Hx) as Hb. unfold num_min.
  destruct (num_leb a b) eqn:E.
  - apply num_leb_le in E. apply (num_le_trans _ b); [| exact Hx].
    destruct a, b; try congruence; try exact E; inversion E; congruence.
  - destruct a, b; try congruence; exact Hx.
Qed.

Lemma series_max_in (l : list num) : series_max l <> NaN -> In (series_max l) l.
Proof.
  induction l as [| x l IH]; simpl; intros H; [congruence |].
  destruct (num_max_cases x (series_max l)) as [E | E]; rewrite E in *; auto.
Qed.

Lemma series_min_in (l : list num) : series_min l <> NaN -> In (series_min l) l.
Proof.
  induction l as [| x l IH]; simpl; intros H; [congruence |].
  destruct (num_min_cases x (series_min l)) as [E | E]; rewrite E in *; auto.
Qed.

Lemma series_max_ub (l : list num) (x : num) :
  In x l -> x <> NaN -> num_le x (series_max l).
Proof.
  induction l as [| y l IH]; simpl; intros Hin Hx; [destruct Hin |].
  destruct Hin as [-> | Hin].
  - now apply num_max_ub_l.
  - apply num_max_ub_r. now apply IH.
Qed.

Lemma series_min_lb (l : list num) (x : num) :
  In x l -> x <> NaN -> num_le (series_min l) x.
Proof.
  induction l as [| y l IH]; simpl; intros Hin Hx; [destruct Hin |].
  destruct Hin as [-> | Hin].
  - now apply num_min_lb_l.
  - apply num_min_lb_r. now apply IH.
Qed.

Lemma series_min_missing (l : list num) :
  (forall x, In x l -> x = NaN) -> series_min l = NaN.
Proof.
  induction l as [| x l IH]; simpl; intros H; [reflexivity |].
  rewrite (H x) by now left. simpl. apply IH. intros y Hy. apply H. now right.
Qed.

Lemma trunc_mono (p q : Q) :
  (p <= q)%Q -> Z.quot (Qnum p) (Zpos (Qden p)) <= Z.quot (Qnum q) (Zpos (Qden q)).
Proof.
  unfold Qle. intros H.
  rewrite <- (Z.quot_mul_cancel_r (Qnum p) (Zpos (Qden p)) (Zpos (Qden q))) by lia.
  rewrite <- (Z.quot_mul_cancel_r (Qnum q) (Zpos (Qden q)) (Zpos (Qden p))) by lia.
  rewrite (Z.mul_comm (Zpos (Qden q)) (Zpos (Qden p))).
  apply Z.quot_le_mono; [lia | exact H].
Qed.

Lemma count_rows_lt (p q : row -> bool) (t : table) :
  (forall r, p r = true -> q r = true) ->
  (exists r, In r t /\ q r = true /\ p r = false) ->
  (count_rows p t < count_rows q t)%nat.
Proof.
  intros Hpq. unfold count_rows.
  assert (Hle : forall t', (length (List.filter p t') <= length (List.filter q t'))%nat).
  { induction t' as [| r t' IH]; simpl; [lia |].
    destruct (p r) eqn:E.
    - rewrite (Hpq r E). simpl. lia.
    - destruct (q r); simpl; lia. }
  induction t as [| r t IH]; intros (r0 & Hin & Hq & Hp); [destruct Hin |].
  simpl. destruct Hin as [-> | Hin].
  - rewrite Hp, Hq. simpl. specialize (Hle t). lia.
  - assert (IH' : (length (List.filter p t) < length (List.filter q t))%nat) by eauto.
    destruct (p r) eqn:E.
    + rewrite (Hpq r E). simpl. lia.
    + destruct (q r); simpl; lia.
Qed.

Lemma dbh_bounds_ordered (t : table) (mn mx : Q) :
  series_min (map dbh t) = Fin mn -> series_max (map dbh t) = Fin mx -> (mn <= mx)%Q.
Proof.
  intros Hmin Hmax.
  assert (Hin : In (Fin mx) (map dbh t)).
  { rewrite <- Hmax. apply series_max_in. rewrite Hmax. discriminate. }
  pose proof (series_min_lb _ _ Hin ltac:(discriminate)) as Hle.
  rewrite Hmin in Hle. now inversion Hle.
Qed.

(** ** The diameter view *)

Lemma slider_bounds_finite (t : table) (mn mx : Q) :
  series_min (map dbh t) = Fin mn -> series_max (map dbh t) = Fin mx ->
  slider_bounds t =
    inr (Z.quot (Qnum mn) (Zpos (Qden mn)), Z.quot (Qnum mx) (Zpos (Qden mx))).
Proof. intros Hmin Hmax. unfold slider_bounds. now rewrite Hmin, Hmax. Qed.

(** C8.  When the smallest and largest dbh of the table are the finite
    values [mn] and [mx], the bounds the diameter view passes to its slider
    are [int(mn)] and [int(mx)], both truncated toward zero.  If
    [st.slider] rejects them (they coincide, or one is not a safe integer)
    the view raises there and reports no total.  Otherwise the slider is
    shown with these bounds and, whatever range [a, b] the user selects on
    it, the reported total is the number of rows with [a <= dbh <= b], and
    no row whose dbh exceeds the truncated maximum is counted; when the
    truncated maximum is below [mx] (the maximum is not an integer), the
    reported total is strictly smaller than the number of rows with a
    numeric dbh. *)
Theorem diameter_slider_truncated (s : session) (df : loc) (t : table) (w : widgets)
    (mn mx : Q) (lo hi : Z) :
  frames s !! df = Some t ->
  slider_ok w ->
  series_min (map dbh t) = Fin mn ->
  series_max (map dbh t) = Fin mx ->
  py_int (Fin mn) = inr lo ->
  py_int (Fin mx) = inr hi ->
  lo = Z.quot (Qnum mn) (Zpos (Qden mn)) /\
  hi = Z.quot (Qnum mx) (Zpos (Qden mx)) /\
  (~ (lo < hi /\ - max_safe_integer <= lo /\ hi <= max_safe_integer) ->
   page_diameter df w s =
     (inl StreamlitAPIException,
      mkSession (frames s) (screen s ++ [st_header [Lit "Filter Trees by Diameter"]])%list)) /\
  (lo < hi -> - max_safe_integer <= lo -> hi <= max_safe_integer ->
   exists (a b : Z) (s' : session) (evs : list event),
     slider w "Select diameter range (in inches):" lo hi = (a, b) /\
     lo <= a /\ a <= b /\ b <= hi /\
     page_diameter df w s = (inr tt, s') /\
     screen s' = (screen s ++ evs)%list /\
     In (st_slider "Select diameter range (in inches):" lo hi) evs /\
     In (st_write [Lit "Total trees in selected range: ";
                   FInt (Z.of_nat (count_rows (in_dbh_range (of_Z a) (of_Z b)) t))]) evs /\
     (forall r, In r t -> in_dbh_range (of_Z a) (of_Z b) r = true ->
                num_le (dbh r) (of_Z hi)) /\
     ((inject_Z hi < mx)%Q ->
      (count_rows (in_dbh_range (of_Z a) (of_Z b)) t <
       count_rows (fun r => notna (dbh r)) t)%nat)).
Proof.
  intros H Hw Hmin Hmax Hlo Hhi.
  simpl in Hlo, Hhi. injection Hlo as Hlo. injection Hhi as Hhi.
  split; [now symmetry |]. split; [now symmetry |].
  pose proof (slider_bounds_finite t mn mx Hmin Hmax) as Hb. rewrite Hlo, Hhi in Hb.
  clear Hlo Hhi. split.
  - intros Hrej.
    assert (Hacc : slider_accepts lo hi = false).
    { destruct (slider_accepts lo hi) eqn:E; [| reflexivity].
      apply slider_accepts_iff in E. contradiction. }
    unfold page_diameter.
    unfold bind at 1. rewrite emit_run.
    unfold bind at 1. rewrite (column_run _ _ _ t) by exact H.
    unfold slider_bounds in Hb.
    destruct (py_int (series_min (map dbh t))) as [e | lo'] eqn:Elo; [discriminate |].
    unfold bind at 1. unfold lift at 1.
    unfold bind at 1. rewrite (column_run _ _ _ t) by exact H.
    destruct (py_int (series_max (map dbh t))) as [e | hi'] eqn:Ehi; [discriminate |].
    injection Hb as -> ->.
    unfold bind at 1. unfold lift at 1.
    unfold bind at 1. rewrite range_slider_run, Hacc. reflexivity.
  - intros Hlt Hsafe_lo Hsafe_hi.
    assert (Hacc : slider_accepts lo hi = true) by (apply slider_accepts_iff; auto).
    destruct (Hw "Select diameter range (in inches):" lo hi ltac:(lia)) as [[Hla Hab] Hbh].
    destruct (slider w "Select diameter range (in inches):" lo hi) as [a b] eqn:Esel.
    simpl in Hla, Hab, Hbh.
    destruct (page_diameter_run s df t w H) as (h' & Hrun & _).
    unfold diameter_result in Hrun. rewrite Hb, Hacc in Hrun.
    assert (Hupper : forall r, in_dbh_range (of_Z a) (of_Z b) r = true ->
                               num_le (dbh r) (of_Z hi)).
    { intros r Hr. apply in_dbh_range_le in Hr. destruct Hr as [_ Hr].
      apply (num_le_trans _ (of_Z b)); [exact Hr |].
      constructor. rewrite <- Zle_Qle. exact Hbh. }
    eexists a, b, _, (diameter_events t w).
    split; [reflexivity |].
    split; [exact Hla |]. split; [exact Hab |]. split; [exact Hbh |].
    split; [exact Hrun |]. split; [reflexivity |].
    unfold diameter_events. rewrite Hb, Hacc, Esel.
    split; [right; left; reflexivity |]. split; [right; right; left; reflexivity |].
    split; [intros r _; apply Hupper |].
    intros Hfrac. apply count_rows_lt.
    + intros r Hr. apply in_dbh_range_le in Hr. destruct Hr as [_ Hr].
      apply num_le_notna_l in Hr. now destruct (dbh r).
    + assert (Hin : In (Fin mx) (map dbh t)).
      { rewrite <- Hmax. apply series_max_in. rewrite Hmax. discriminate. }
      apply in_map_iff in Hin. destruct Hin as (r & Hr & Hrt).
      exists r. split; [exact Hrt |]. rewrite Hr. split; [reflexivity |].
      destruct (in_dbh_range (of_Z a) (of_Z b) r) eqn:E; [| reflexivity].
      apply Hupper in E. rewrite Hr in E. inversion E; subst.
      exfalso. eapply Qlt_not_le; eassumption.
Qed.

Lemma series_max_present (l : list num) (x : num) :
  In x l -> x <> NaN -> series_max l <> NaN.
Proof. intros Hin Hx. eapply num_le_notna_r, series_max_ub; eassumption. Qed.

Lemma series_min_present (l : list num) (x : num) :
  In x l -> x <> NaN -> series_min l <> NaN.
Proof. intros Hin Hx. eapply num_le_notna_l, series_min_lb; eassumption. Qed.

(** C9 fails on a table whose dbh column holds an infinity: the column
    has a numeric value, and [int] raises OverflowError on the maximum. *)
Lemma diameter_view_overflows_on_infinity :
  (exists r, In r infinite_table /\ dbh r <> NaN) /\
  py_int (series_max (map dbh infinite_table)) = inl OverflowError /\
  fst (page_diameter 0%nat (default_user TreeDiameterFilter)
         (mkSession {[ 0%nat := infinite_table ]} [])) = inl OverflowError.
Proof.
  split; [| split]; [| reflexivity | vm_compute; reflexivity].
  eexists. split; [left; reflexivity | discriminate].
Qed.

(** C9, as the program has it.  When every dbh is missing, [int] is applied
    to the missing value: the view raises ValueError right after its
    header and renders nothing.  When some dbh is infinite the view raises
    OverflowError.  When at least one dbh is present and every present dbh
    is finite, both [int] conversions succeed, with the first result at
    most the second: the view then goes on to its slider, and returns
    normally unless [st.slider] rejects these bounds. *)
Theorem diameter_view_precondition (s : session) (df : loc) (t : table) (w : widgets) :
  frames s !! df = Some t ->
  ((forall r, In r t -> dbh r = NaN) ->
   page_diameter df w s =
     (inl ValueError,
      mkSession (frames s) (screen s ++ [st_header [Lit "Filter Trees by Diameter"]])%list)) /\
  ((exists r, In r t /\ (dbh r = PosInf \/ dbh r = NegInf)) ->
   fst (page_diameter df w s) = inl OverflowError) /\
  ((exists r, In r t /\ dbh r <> NaN) ->
   (forall r, In r t -> dbh r <> NaN -> isfinite (dbh r) = true) ->
   exists lo hi,
     py_int (series_min (map dbh t)) = inr lo /\
     py_int (series_max (map dbh t)) = inr hi /\
     lo <= hi /\
     (lo < hi -> - max_safe_integer <= lo -> hi <= max_safe_integer ->
      fst (page_diameter df w s) = inr tt) /\
     (~ (lo < hi /\ - max_safe_integer <= lo /\ hi <= max_safe_integer) ->
      fst (page_diameter df w s) = inl StreamlitAPIException)).
Proof.
  intros H. destruct (page_diameter_run s df t w H) as (h' & Hrun & _).
  split; [| split].
  - intros Hall. unfold page_diameter.
    unfold bind at 1. rewrite emit_run.
    unfold bind at 1. rewrite (column_run _ _ _ t) by exact H.
    unfold bind at 1. unfold lift at 1.
    rewrite series_min_missing; [reflexivity |].
    intros x Hx. apply in_map_iff in Hx. destruct Hx as (r & <- & Hr). now apply Hall.
  - intros (r & Hr & Hinf). rewrite Hrun. simpl. unfold diameter_result, slider_bounds.
    assert (Hin : In (dbh r) (map dbh t)) by now apply in_map.
    assert (Hmin : series_min (map dbh t) <> NaN).
    { apply (series_min_present _ (dbh r) Hin). destruct Hinf as [-> | ->]; discriminate. }
    destruct Hinf as [Hinf | Hinf]; rewrite Hinf in Hin.
    + pose proof (series_max_ub _ _ Hin ltac:(discriminate)) as Hle.
      destruct (series_min (map dbh t)); try congruence; try reflexivity.
      inversion Hle; subst; try congruence. reflexivity.
    + pose proof (series_min_lb _ _ Hin ltac:(discriminate)) as Hle.
      inversion Hle; subst; try congruence. reflexivity.
  - intros (r & Hr & Hpresent) Hfin.
    assert (Hin : In (dbh r) (map dbh t)) by now apply in_map.
    assert (Hf : forall x, In x (map dbh t) -> x <> NaN -> exists q, x = Fin q).
    { intros x Hx Hne. apply in_map_iff in Hx. destruct Hx as (r' & <- & Hr').
      specialize (Hfin r' Hr' Hne). destruct (dbh r'); try discriminate. eauto. }
    pose proof (series_min_present _ _ Hin Hpresent) as Hmin.
    pose proof (series_max_present _ _ Hin Hpresent) as Hmax.
    destruct (Hf _ (series_min_in _ Hmin) Hmin) as [mn Emn].
    destruct (Hf _ (series_max_in _ Hmax) Hmax) as [mx Emx].
    rewrite Hrun. unfold diameter_result.
    rewrite (slider_bounds_finite t mn mx Emn Emx), Emn, Emx.
    eexists _, _. split; [reflexivity |]. split; [reflexivity |].
    split; [apply trunc_mono; eapply dbh_bounds_ordered; eassumption |].
    cbn [fst]. split.
    + intros Hlt Hsafe_lo Hsafe_hi.
      rewrite (proj2 (slider_accepts_iff _ _)) by auto. reflexivity.
    + intros Hrej. destruct (slider_accepts _ _) eqn:E; [| reflexivity].
      apply slider_accepts_iff in E. contradiction.
Qed.

(** ** The bar chart *)

Lemma skipn_In {A : Type} (n : nat) (l : list A) (a : A) :
  In a (skipn n l) -> In a l.
Proof.
  revert l. induction n as [| n IH]; intros l H; [exact H |].
  destruct l as [| b l]; [exact H |]. right. now apply IH.
Qed.

Lemma sorted_firstn_skipn (l : list (string * nat)) (n : nat) (e e' : string * nat) :
  StronglySorted count_ge l ->
  In e (firstn n l) -> In e' (skipn n l) -> count_ge e e'.
Proof.
  intros Hs. revert n. induction Hs as [| x l Hs IH Hall]; intros n He He'.
  - destruct n; destruct He.
  - destruct n as [| n]; [destruct He |]. simpl in He, He'.
    destruct He as [<- | He].
    + rewrite List.Forall_forall in Hall. apply Hall. eapply skipn_In, He'.
    + eapply IH; eassumption.
Qed.

Lemma sum_counts_firstn (n : nat) (c : list (string * nat)) :
  (sum_counts (firstn n c) <= sum_counts c)%nat.
Proof.
  revert n. induction c as [| e c IH]; intros [| n]; simpl; try lia.
  specialize (IH n). lia.
Qed.

(** C10.  In the neighborhood view the bar chart shows the first 30
    entries of the counts Series, hence at most 30 species, none of them
    less frequent than a species left out; the list printed below it is the
    first 10 entries of what the chart shows; and the bars never add up to
    more than the reported total.  They can add up to strictly less: with
    31 species of one tree each, the bars add up to 30 and the total
    is 31. *)
Theorem bar_chart_top_species :
  (forall (s : session) (df : loc) (t : table) (w : widgets),
      frames s !! df = Some t ->
      exists (selected_nb : option string) (counts shown : list (string * nat))
             (total : nat) (s' : session),
        selected_nb = selectbox w "Select a neighborhood:" (options_of (map neighborhood t)) /\
        fst (neighborhood_tree_counts df selected_nb s) = inr (counts, total) /\
        shown = firstn 30 counts /\
        (length shown <= 30)%nat /\
        page_neighborhood df w s = (inr tt, s') /\
        screen s' =
          (screen s ++
           [ st_header [Lit "Trees by Neighborhood"];
             st_selectbox "Select a neighborhood:" (options_of (map neighborhood t));
             st_write [Lit "Total trees in "; FStr selected_nb; Lit ": ";
                       FInt (Z.of_nat total)];
             st_pyplot (BarFigure (map fst shown) (map snd shown)
                          (map (fun i => i mod 20)%nat (seq 0 (length shown)))
                          (map fst shown) "Number of Trees"
                          [Lit "Top 30 Tree Species in "; FStr selected_nb]);
             st_subheader [Lit "Top 10 Species by Count"] ] ++
           map (fun '(species, count) =>
                  st_write [FStr (Some species); Lit ": "; FInt (Z.of_nat count)])
               (firstn 10 shown))%list /\
        firstn 10 shown = firstn 10 counts /\
        (forall e e', In e shown -> In e' (skipn 30 counts) -> (snd e' <= snd e)%nat) /\
        (sum_counts shown <= total)%nat) /\
  (exists (counts : list (string * nat)) (total : nat),
      fst (neighborhood_tree_counts 0%nat (Some "Allston")
             (mkSession {[ 0%nat := orchard_table ]} [])) = inr (counts, total) /\
      sum_counts (firstn 30 counts) = 30%nat /\ total = 31%nat).
Proof.
  split.
  - intros s df t w H.
    destruct (page_neighborhood_run s df t w H) as (h' & Hrun & _).
    set (sel := selectbox w "Select a neighborhood:" (options_of (map neighborhood t))).
    set (nb_data := rows_of_neighborhood sel t).
    pose proof (value_counts_spec (map spp_com nb_data)) as (_ & _ & Hsum & Hsorted).
    eexists sel, (value_counts (map spp_com nb_data)), _, (length nb_data), _.
    split; [reflexivity |].
    split; [rewrite (neighborhood_tree_counts_run _ _ _ _ H); reflexivity |].
    split; [reflexivity |].
    split; [rewrite List.length_firstn; lia |].
    split; [exact Hrun |].
    split; [reflexivity |].
    split; [rewrite List.firstn_firstn; reflexivity |].
    split.
    + intros e e' He He'. exact (sorted_firstn_skipn _ _ _ _ Hsorted He He').
    + etransitivity; [apply sum_counts_firstn |]. rewrite Hsum.
      unfold nb_data, rows_of_neighborhood. rewrite dropna_rows. lia.
  - eexists _, _. split; [vm_compute; reflexivity |]. split; vm_compute; reflexivity.
Qed.

(** ** What loading makes of the numeric columns *)

(** C5.  [load_data] always returns, with a table in which every dbh,
    point_x and point_y cell is a number or the missing value: a number
    read from the file is kept, text denoting a number becomes that number,
    and any other text becomes missing.  Such a cell is then treated as
    missing: whatever the bounds, [filter_trees_by_dbh] on the loaded table
    returns normally and never returns a row whose dbh was such text, no
    map drawn from the loaded table shows a row whose point_x or point_y
    was such text, and a file whose dbh cells are all such text makes the
    diameter view raise the ValueError of [int] on a missing value.  In the
    map view, as soon
    as one row has a valid position a map is drawn, and its points are the
    rows with a valid position, in order, with dbh 5 where the row's dbh
    was missing and species "Unknown" where the row's species was missing,
    and the row's own values otherwise. *)
Theorem numeric_columns_coerced (str_to_num : string -> option num) :
  (forall (csv : list csv_row) (s : session),
      exists (df : loc) (s' : session) (t : table),
        load_data str_to_num csv s = (inr df, s') /\
        frames s' !! df = Some t /\
        Forall2 (fun c r =>
                   coerced str_to_num (csv_dbh c) (dbh r) /\
                   coerced str_to_num (csv_point_x c) (point_x r) /\
                   coerced str_to_num (csv_point_y c) (point_y r) /\
                   spp_com r = csv_spp_com c /\
                   neighborhood r = csv_neighborhood c /\
                   park r = csv_park c) csv t /\
        (forall a b : num,
           exists (out : loc) (s'' : session) (rows : table),
             filter_trees_by_dbh df a b s' = (inr out, s'') /\
             frames s'' !! out = Some rows /\
             Forall2 (fun c r =>
                        forall txt, csv_dbh c = CStr txt -> str_to_num txt = None ->
                                    dbh r = NaN /\ ~ In r rows) csv t) /\
        exists (s'' : session) (evs : list event),
          build_pydeck_map df s' = (inr tt, s'') /\
          screen s'' = (screen s' ++ evs)%list /\
          forall d, In (st_pydeck_chart d) evs ->
            Forall2 (fun c r =>
                       forall txt,
                         csv_point_x c = CStr txt \/ csv_point_y c = CStr txt ->
                         str_to_num txt = None ->
                         forall r', In r' (layer_data d) -> ~ shown_as r r') csv t) /\
  (forall (csv : list csv_row) (w : widgets) (s : session),
      radio w = TreeDiameterFilter ->
      (forall c, In c csv -> exists txt, csv_dbh c = CStr txt /\ str_to_num txt = None) ->
      fst (main str_to_num csv w s) = inl ValueError) /\
  (forall (s : session) (df_points : loc) (t : table),
      frames s !! df_points = Some t ->
      (exists r, In r t /\ valid_position r) ->
      exists (s' : session) (d : deck) (rest : list event),
        build_pydeck_map df_points s = (inr tt, s') /\
        screen s' = (screen s ++ st_pydeck_chart d :: rest)%list /\
        forall p : row -> bool,
          (forall r, p r = true <-> valid_position r) ->
          Forall2 filled_as (List.filter p t) (layer_data d)).
Proof.
  split; [| split].
  - intros csv s. rewrite load_data_run.
    set (df := fresh (dom (frames s))).
    set (t := map (coerce_row str_to_num) csv).
    eexists df, _, t. split; [reflexivity |].
    assert (Hdf : frames (mkSession (<[df := t]> (frames s)) (screen s)) !! df = Some t)
      by apply lookup_insert_eq.
    split; [exact Hdf |]. split.
    + apply Forall2_map_In. intros c _.
      repeat split; apply to_numeric_coerce_coerced.
    + split.
      * intros a b. rewrite (filter_trees_by_dbh_run _ _ _ _ _ Hdf).
        eexists _, _, _. split; [reflexivity |].
        split; [simpl; apply lookup_insert_eq |].
        apply Forall2_map_In. intros c _ txt Hc Hnone.
        assert (Hnan : dbh (coerce_row str_to_num c) = NaN).
        { simpl. rewrite Hc. simpl. now rewrite Hnone. }
        split; [exact Hnan |]. intros Hin. apply filter_In_iff in Hin.
        destruct Hin as [_ Hin]. apply in_dbh_range_le in Hin. destruct Hin as [Hin _].
        apply num_le_notna_r in Hin. contradiction.
      * destruct (build_pydeck_map_run _ df t Hdf) as (h' & Hrun & _).
        eexists _, (map_events t). split; [exact Hrun |]. split; [reflexivity |].
        intros d Hd. apply map_events_chart in Hd. destruct Hd as [_ Hd].
        apply Forall2_map_In. intros c _ txt Hcell Hnone r' Hr' Hshown.
        rewrite Hd in Hr'.
        destruct (Forall2_In_r _ _ _ _ (layer_rows_shown (map_points t)) Hr')
          as (r0 & Hr0 & Hx0 & Hy0 & _).
        apply map_points_In in Hr0. destruct Hr0 as [_ (x & y & Hpx & Hpy & _)].
        destruct Hshown as (Hx & Hy & _).
        destruct Hcell as [Hcell | Hcell].
        -- assert (Hnan : point_x (coerce_row str_to_num c) = NaN).
           { simpl. rewrite Hcell. simpl. now rewrite Hnone. }
           congruence.
        -- assert (Hnan : point_y (coerce_row str_to_num c) = NaN).
           { simpl. rewrite Hcell. simpl. now rewrite Hnone. }
           congruence.
  - intros csv w s Hpage Htext.
    destruct (main_run str_to_num csv w s) as (h' & Hrun & _).
    rewrite Hrun. cbn [fst]. unfold page_result. rewrite Hpage.
    unfold diameter_result, slider_bounds. rewrite series_min_missing; [reflexivity |].
    intros x Hx. apply in_map_iff in Hx. destruct Hx as (r & <- & Hr).
    apply in_map_iff in Hr. destruct Hr as (c & <- & Hc).
    destruct (Htext c Hc) as (txt & Hcell & Hnone).
    simpl. rewrite Hcell. simpl. now rewrite Hnone.
  - intros s df_points t H (r & Hr & Hv).
    destruct (build_pydeck_map_run s df_points t H) as (h' & Hrun & _).
    assert (Hin : In r (map_points t)) by (apply map_points_In; auto).
    unfold map_events in Hrun.
    destruct (map_points t) as [| r0 pts] eqn:E; [destruct Hin |].
    eexists _, _, _. split; [exact Hrun |]. split; [reflexivity |].
    intros p Hp. cbn [layer_data]. rewrite <- E.
    assert (Hfilter : List.filter p t = map_points t).
    { rewrite map_points_filter. apply filter_ext_bool. intros r'.
      destruct (p r') eqn:Ep.
      - symmetry. now apply valid_coords_position, Hp.
      - destruct (valid_coords r') eqn:E'; [| reflexivity].
        apply valid_coords_position, Hp in E'. congruence. }
    rewrite Hfilter.
    eapply Forall2_impl_rel; [apply shown_filled | apply layer_rows_shown].
Qed.

(** ** The theorems at the sample data *)

Lemma filter_trees_by_dbh_range_witness :
  frames sample_session !! 0%nat = Some sample_table /\
  exists (out : loc) (s' : session) (t' : table),
    filter_trees_by_dbh 0%nat (of_Z 3) (of_Z 10) sample_session = (inr out, s') /\
    frames s' !! out = Some t' /\
    (forall r, In r t' <->
               In r sample_table /\ num_le (of_Z 3) (dbh r) /\ num_le (dbh r) (of_Z 10)) /\
    (forall r, In r t' -> dbh r <> NaN) /\
    (forall p : row -> bool,
        (forall r, p r = true <-> num_le (of_Z 3) (dbh r) /\ num_le (dbh r) (of_Z 10)) ->
        t' = List.filter p sample_table).
Proof.
  split; [reflexivity |].
  apply (filter_trees_by_dbh_range sample_session 0%nat sample_table (of_Z 3) (of_Z 10)).
  reflexivity.
Defined.

Lemma build_pydeck_map_valid_points_witness :
  frames sample_session !! 0%nat = Some sample_table /\
  exists (s' : session) (evs : list event),
    build_pydeck_map 0%nat sample_session = (inr tt, s') /\
    screen s' = (screen sample_session ++ evs)%list /\
    forall d, In (st_pydeck_chart d) evs ->
      Forall valid_position (layer_data d) /\
      exists pts : table,
        (forall r, In r pts <-> In r sample_table /\ valid_position r) /\
        (forall p : row -> bool,
            (forall r, p r = true <-> valid_position r) ->
            pts = List.filter p sample_table) /\
        Forall2 shown_as pts (layer_data d).
Proof.
  split; [reflexivity |].
  apply (build_pydeck_map_valid_points sample_session 0%nat sample_table).
  reflexivity.
Defined.

Lemma narrow_user_slider_ok (view : page) : slider_ok (narrow_user view).
Proof. intros label lo hi Hle. simpl. lia. Qed.

Lemma empty_selection_message_witness :
  (let s := mkSession {[ 0%nat := unnamed_table ]} [] in
   let w := default_user MapOfTreesInParks in
   frames s !! 0%nat = Some unnamed_table /\
   radio w = MapOfTreesInParks /\
   (forall r p, In r unnamed_table ->
      selectbox w "Choose a park:" (options_of (map park unnamed_table)) = Some p ->
      park r <> Some p) /\
   exists (res : exn + unit) (s' : session) (evs : list event),
     render 0%nat w s = (res, s') /\
     screen s' = (screen s ++ evs)%list /\
     In (st_info [Lit "No valid coordinate data to display."]) evs /\
     forallb (fun e => negb (is_rendering e)) evs = true) /\
  (let w := narrow_user TreeDiameterFilter in
   frames sample_session !! 0%nat = Some sample_table /\
   radio w = TreeDiameterFilter /\
   slider_ok w /\
   py_int (series_min (map dbh sample_table)) = inr 3 /\
   py_int (series_max (map dbh sample_table)) = inr 10 /\
   slider w "Select diameter range (in inches):" 3 10 = (5, 6) /\
   (forall r, In r sample_table ->
      ~ (num_le (of_Z 5) (dbh r) /\ num_le (dbh r) (of_Z 6))) /\
   exists (s' : session) (evs : list event),
     render 0%nat w sample_session = (inr tt, s') /\
     screen s' = (screen sample_session ++ evs)%list /\
     In (st_slider "Select diameter range (in inches):" 3 10) evs /\
     In (st_write [Lit "Total trees in selected range: "; FInt 0]) evs /\
     In (st_write [Lit "No trees found in this diameter range."]) evs /\
     forallb (fun e => negb (is_rendering e)) evs = true).
Proof.
  cbv zeta. split.
  - assert (Hnone : forall r p, In r unnamed_table ->
              selectbox (default_user MapOfTreesInParks) "Choose a park:"
                        (options_of (map park unnamed_table)) = Some p ->
              park r <> Some p).
    { intros r p _ Hsel. vm_compute in Hsel. discriminate. }
    split; [reflexivity |]. split; [reflexivity |]. split; [exact Hnone |].
    destruct (empty_selection_message (mkSession {[ 0%nat := unnamed_table ]} []) 0%nat
                unnamed_table (default_user MapOfTreesInParks))
      as (res & s' & evs & Hrun & Hscreen & Hmap & _); [reflexivity |].
    exists res, s', evs. split; [exact Hrun |]. split; [exact Hscreen |].
    now apply Hmap.
  - assert (Hnone : forall r, In r sample_table ->
              ~ (num_le (of_Z 5) (dbh r) /\ num_le (dbh r) (of_Z 6))).
    { intros r Hr [H1 H2]. simpl in Hr.
      destruct Hr as [<- | [<- | [<- | [<- | [<- | []]]]]]; simpl in H1, H2;
        inversion H1; inversion H2; subst;
        repeat match goal with H : (_ <= _)%Q |- _ => unfold Qle in H; simpl in H end;
        lia. }
    split; [reflexivity |]. split; [reflexivity |].
    split; [apply narrow_user_slider_ok |].
    split; [reflexivity |]. split; [reflexivity |]. split; [reflexivity |].
    split; [exact Hnone |].
    destruct (empty_selection_message sample_session 0%nat sample_table
                (narrow_user TreeDiameterFilter))
      as (res & s' & evs & Hrun & Hscreen & _ & Hdiam & _); [reflexivity |].
    destruct (Hdiam eq_refl 3 10) as (Hres & Hsl & Htot & Hmsg & Hno);
      [reflexivity | reflexivity | lia | unfold max_safe_integer; lia
       | unfold max_safe_integer; lia | exact Hnone |].
    subst res. exists s', evs. auto 10.
Defined.

Lemma neighborhood_tree_counts_group_witness :
  frames sample_session !! 0%nat = Some sample_table /\
  exists (counts : list (string * nat)) (total : nat) (s' : session),
    neighborhood_tree_counts 0%nat (Some "Allston") sample_session =
      (inr (counts, total), s') /\
    total = count_rows (fun r => bool_decide (neighborhood r = Some "Allston")) sample_table /\
    List.NoDup (map fst counts) /\
    (forall sp k,
        In (sp, k) counts <->
        (0 < k)%nat /\
        k = count_rows (fun r => bool_decide (neighborhood r = Some "Allston") &&
                                 bool_decide (spp_com r = Some sp)) sample_table) /\
    total =
      (sum_counts counts +
       count_rows (fun r => bool_decide (neighborhood r = Some "Allston") &&
                            bool_decide (spp_com r = None)) sample_table)%nat.
Proof.
  split; [reflexivity |].
  apply (neighborhood_tree_counts_group sample_session 0%nat sample_table "Allston").
  reflexivity.
Defined.

Lemma numeric_columns_coerced_witness :
  (exists (df : loc) (s' : session) (t : table),
      load_data read_unsigned sample_csv empty_session = (inr df, s') /\
      frames s' !! df = Some t /\
      Forall2 (fun c r =>
                 coerced read_unsigned (csv_dbh c) (dbh r) /\
                 coerced read_unsigned (csv_point_x c) (point_x r) /\
                 coerced read_unsigned (csv_point_y c) (point_y r) /\
                 spp_com r = csv_spp_com c /\
                 neighborhood r = csv_neighborhood c /\
                 park r = csv_park c) sample_csv t /\
      exists (out : loc) (s'' : session) (rows : table),
        filter_trees_by_dbh df (of_Z 0) (of_Z 100) s' = (inr out, s'') /\
        frames s'' !! out = Some rows /\
        Forall2 (fun c r =>
                   forall txt, csv_dbh c = CStr txt -> read_unsigned txt = None ->
                               dbh r = NaN /\ ~ In r rows) sample_csv t) /\
  (radio (default_user TreeDiameterFilter) = TreeDiameterFilter /\
   (forall c, In c text_csv -> exists txt, csv_dbh c = CStr txt /\ read_unsigned txt = None) /\
   fst (main read_unsigned text_csv (default_user TreeDiameterFilter) empty_session) =
     inl ValueError) /\
  (frames sample_session !! 0%nat = Some sample_table /\
   (exists r, In r sample_table /\ valid_position r) /\
   exists (s' : session) (d : deck) (rest : list event),
     build_pydeck_map 0%nat sample_session = (inr tt, s') /\
     screen s' = (screen sample_session ++ st_pydeck_chart d :: rest)%list /\
     forall p : row -> bool,
       (forall r, p r = true <-> valid_position r) ->
       Forall2 filled_as (List.filter p sample_table) (layer_data d)).
Proof.
  destruct (numeric_columns_coerced read_unsigned) as (Hload & Htext & Hmap).
  split; [| split].
  - destruct (Hload sample_csv empty_session)
      as (df & s' & t & Hrun & Hdf & Hcells & Hfilter & _).
    exists df, s', t. split; [exact Hrun |]. split; [exact Hdf |].
    split; [exact Hcells |]. apply Hfilter.
  - assert (Hall : forall c, In c text_csv ->
                     exists txt, csv_dbh c = CStr txt /\ read_unsigned txt = None).
    { intros c [<- | [<- | []]]; eexists; split; reflexivity. }
    split; [reflexivity |]. split; [exact Hall |].
    apply Htext; [reflexivity | exact Hall].
  - assert (Hvalid : exists r, In r sample_table /\ valid_position r).
    { eexists. split; [left; reflexivity |].
      exists (-71 # 1)%Q, (42 # 1)%Q. repeat split; simpl; unfold Qle; simpl; lia. }
    split; [reflexivity |]. split; [exact Hvalid |].
    apply Hmap; [reflexivity | exact Hvalid].
Defined.

Lemma loaded_table_unchanged_witness :
  let w := default_user MapOfTreesInParks in
  frames sample_session !! 0%nat = Some sample_table /\
  (frames (snd (render 0%nat w sample_session)) !! 0%nat = Some sample_table /\
   preserved (frames sample_session) (frames (snd (render 0%nat w sample_session)))) /\
  (forall a b,
      preserved (frames sample_session)
                (frames (snd (filter_trees_by_dbh 0%nat a b sample_session)))) /\
  (forall nb,
      preserved (frames sample_session)
                (frames (snd (neighborhood_tree_counts 0%nat nb sample_session)))) /\
  preserved (frames sample_session) (frames (snd (build_pydeck_map 0%nat sample_session))) /\
  (forall str_to_num csv,
      exists df',
        frames (snd (main str_to_num csv w sample_session)) !! df' =
          Some (map (coerce_row str_to_num) csv) /\
        preserved (frames sample_session)
                  (frames (snd (main str_to_num csv w sample_session)))).
Proof.
  cbv zeta. split; [reflexivity |].
  apply (loaded_table_unchanged sample_session 0%nat sample_table
           (default_user MapOfTreesInParks)).
  reflexivity.
Defined.

Lemma interaction_deterministic_witness :
  let s2 := mkSession {[ 7%nat := sample_table; 2%nat := unnamed_table ]}
                      [st_title [Lit "Boston Trees Explorer"]] in
  let w := default_user TreesByNeighborhood in
  frames sample_session !! 0%nat = Some sample_table /\
  frames s2 !! 7%nat = Some sample_table /\
  exists (res : exn + unit) (evs : list event),
    fst (render 0%nat w sample_session) = res /\ fst (render 7%nat w s2) = res /\
    screen (snd (render 0%nat w sample_session)) = (screen sample_session ++ evs)%list /\
    screen (snd (render 7%nat w s2)) = (screen s2 ++ evs)%list.
Proof.
  cbv zeta. split; [reflexivity |]. split; [reflexivity |].
  apply (interaction_deterministic sample_session
           (mkSession {[ 7%nat := sample_table; 2%nat := unnamed_table ]}
                      [st_title [Lit "Boston Trees Explorer"]])
           0%nat 7%nat sample_table (default_user TreesByNeighborhood));
    reflexivity.
Defined.

Lemma diameter_slider_truncated_witness :
  let w := default_user TreeDiameterFilter in
  frames sample_session !! 0%nat = Some sample_table /\
  slider_ok w /\
  series_min (map dbh sample_table) = Fin (3 # 1) /\
  series_max (map dbh sample_table) = Fin (21 # 2) /\
  py_int (Fin (3 # 1)) = inr 3 /\
  py_int (Fin (21 # 2)) = inr 10 /\
  3 < 10 /\ - max_safe_integer <= 3 /\ 10 <= max_safe_integer /\
  (inject_Z 10 < 21 # 2)%Q /\
  exists (a b : Z) (s' : session) (evs : list event),
    slider w "Select diameter range (in inches):" 3 10 = (a, b) /\
    page_diameter 0%nat w sample_session = (inr tt, s') /\
    screen s' = (screen sample_session ++ evs)%list /\
    In (st_slider "Select diameter range (in inches):" 3 10) evs /\
    In (st_write [Lit "Total trees in selected range: ";
                  FInt (Z.of_nat (count_rows (in_dbh_range (of_Z a) (of_Z b)) sample_table))])
       evs /\
    (count_rows (in_dbh_range (of_Z a) (of_Z b)) sample_table <
     count_rows (fun r => notna (dbh r)) sample_table)%nat.
Proof.
  cbv zeta.
  split; [reflexivity |]. split; [apply default_user_slider_ok |].
  split; [reflexivity |]. split; [reflexivity |].
  split; [reflexivity |]. split; [reflexivity |].
  split; [lia |]. split; [unfold max_safe_integer; lia |].
  split; [unfold max_safe_integer; lia |]. split; [reflexivity |].
  destruct (diameter_slider_truncated sample_session 0%nat sample_table
              (default_user TreeDiameterFilter) (3 # 1) (21 # 2) 3 10)
    as (_ & _ & _ & Hshown);
    [reflexivity | apply default_user_slider_ok | reflexivity ..|].
  destruct Hshown as (a & b & s' & evs & Hsel & _ & _ & _ & Hrun & Hscr
                      & Hslider & Htotal & _ & Hstrict);
    [lia | unfold max_safe_integer; lia | unfold max_safe_integer; lia |].
  exists a, b, s', evs. repeat split; try assumption.
  apply Hstrict. reflexivity.
Defined.

Lemma diameter_view_precondition_witness :
  let w := default_user TreeDiameterFilter in
  frames sample_session !! 0%nat = Some sample_table /\
  (exists r, In r sample_table /\ dbh r <> NaN) /\
  (forall r, In r sample_table -> dbh r <> NaN -> isfinite (dbh r) = true) /\
  py_int (series_min (map dbh sample_table)) = inr 3 /\
  py_int (series_max (map dbh sample_table)) = inr 10 /\
  fst (page_diameter 0%nat w sample_session) = inr tt.
Proof.
  cbv zeta.
  assert (Hsome : exists r, In r sample_table /\ dbh r <> NaN).
  { eexists. split; [left; reflexivity | discriminate]. }
  assert (Hfin : forall r, In r sample_table -> dbh r <> NaN -> isfinite (dbh r) = true).
  { intros r Hr Hne. simpl in Hr.
    destruct Hr as [<- | [<- | [<- | [<- | [<- | []]]]]]; simpl in *; congruence. }
  split; [reflexivity |]. split; [exact Hsome |]. split; [exact Hfin |].
  destruct (diameter_view_precondition sample_session 0%nat sample_table
              (default_user TreeDiameterFilter)) as (_ & _ & Hok); [reflexivity |].
  destruct (Hok Hsome Hfin) as (lo & hi & Hlo & Hhi & _ & Hrun & _).
  assert (lo = 3) by (vm_compute in Hlo; congruence).
  assert (hi = 10) by (vm_compute in Hhi; congruence).
  subst lo hi. split; [exact Hlo |]. split; [exact Hhi |].
  apply Hrun; unfold max_safe_integer; lia.
Defined.

Lemma bar_chart_top_species_witness :
  let w := default_user TreesByNeighborhood in
  frames sample_session !! 0%nat = Some sample_table /\
  exists (counts shown : list (string * nat)) (total : nat),
    fst (neighborhood_tree_counts 0%nat (Some "Allston") sample_session) =
      inr (counts, total) /\
    shown = firstn 30 counts /\
    (length shown <= 30)%nat /\
    firstn 10 shown = firstn 10 counts /\
    (sum_counts shown <= total)%nat.
Proof.
  cbv zeta. split; [reflexivity |].
  destruct bar_chart_top_species as [Hall _].
  destruct (Hall sample_session 0%nat sample_table (default_user TreesByNeighborhood))
    as (sel & counts & shown & total & s' & Hsel & Hcounts & Hshown & Hlen & _ & _
        & Hten & _ & Hsum); [reflexivity |].
  exists counts, shown, total. subst sel. repeat split; assumption.
Defined.

(** * Further properties of the views *)

(** ** The map: when it is drawn *)

Lemma filter_ext_in {A : Type} (p q : A -> bool) (l : list A) :
  (forall a, In a l -> p a = q a) -> List.filter p l = List.filter q l.
Proof.
  induction l as [| a l IH]; simpl; intros H; [reflexivity |].
  rewrite (H a) by now left. rewrite IH; [reflexivity |].
  intros b Hb. apply H. now right.
Qed.

Lemma layer_rows_length (pts : table) : length (layer_rows pts) = length pts.
Proof. unfold layer_rows. now rewrite !List.length_map. Qed.

Lemma legend_markdown (tops : list string) (e : event) :
  In e (legend tops) -> exists i txt, e = st_markdown i txt.
Proof.
  unfold legend. intros H. apply in_map_iff in H.
  destruct H as ([i sp] & <- & _). eauto.
Qed.

(** X1.  [build_pydeck_map] draws a map exactly when the table it receives
    has a row with a valid position.  If it has one, the screen gets one
    [st.pydeck_chart], whose layer has as many points as the table has rows
    with a valid position, then the legend header and only legend entries,
    and no [st.info]; if it has none, the screen gets the single message
    "No valid coordinate data to display." and nothing else. *)
Theorem build_pydeck_map_draws_iff_valid (s : session) (df_points : loc) (t : table) :
  frames s !! df_points = Some t ->
  exists (s' : session) (evs : list event),
    build_pydeck_map df_points s = (inr tt, s') /\
    screen s' = (screen s ++ evs)%list /\
    ((exists r, In r t /\ valid_position r) ->
     exists d rest,
       evs = st_pydeck_chart d :: st_subheader [Lit "Legend: Top 10 Species"] :: rest /\
       length (layer_data d) = count_rows valid_coords t /\
       (0 < length (layer_data d))%nat /\
       forall e, In e rest -> exists i txt, e = st_markdown i txt) /\
    ((forall r, In r t -> ~ valid_position r) ->
     evs = [st_info [Lit "No valid coordinate data to display."]]).
Proof.
  intros H. destruct (build_pydeck_map_run s df_points t H) as (h' & Hrun & _).
  eexists _, (map_events t). split; [exact Hrun |]. split; [reflexivity |].
  unfold map_events. split.
  - intros (r & Hr & Hv).
    assert (Hin : In r (map_points t)) by (apply map_points_In; auto).
    destruct (map_points t) as [| r0 pts] eqn:E; [destruct Hin |].
    eexists _, _. split; [reflexivity |]. cbn [layer_data].
    rewrite layer_rows_length, <- E, map_points_filter.
    split; [reflexivity |]. split.
    + rewrite <- map_points_filter, E. simpl. lia.
    + intros e He. eapply legend_markdown, He.
  - intros Hnone.
    assert (Hnil : map_points t = []).
    { rewrite map_points_filter. apply filter_none. intros r Hr.
      destruct (valid_coords r) eqn:E; [| reflexivity].
      apply valid_coords_position in E. now apply Hnone in E. }
    now rewrite Hnil.
Qed.

Lemma build_pydeck_map_draws_iff_valid_witness :
  frames sample_session !! 0%nat = Some sample_table /\
  (exists r, In r sample_table /\ valid_position r) /\
  exists (s' : session) (d : deck) (rest : list event),
    build_pydeck_map 0%nat sample_session = (inr tt, s') /\
    screen s' =
      (screen sample_session ++
       st_pydeck_chart d :: st_subheader [Lit "Legend: Top 10 Species"] :: rest)%list /\
    length (layer_data d) = count_rows valid_coords sample_table.
Proof.
  assert (Hvalid : exists r, In r sample_table /\ valid_position r).
  { eexists. split; [left; reflexivity |].
    exists (-71 # 1)%Q, (42 # 1)%Q. repeat split; simpl; unfold Qle; simpl; lia. }
  split; [reflexivity |]. split; [exact Hvalid |].
  destruct (build_pydeck_map_draws_iff_valid sample_session 0%nat sample_table)
    as (s' & evs & Hrun & Hscr & Hdraw & _); [reflexivity |].
  destruct (Hdraw Hvalid) as (d & rest & -> & Hlen & _).
  exists s', d, rest. auto.
Defined.

(** ** The map: colours and legend *)

Lemma fold_insert_notin (kvs : list (string * rgb)) (m : gmap string rgb) (k : string) :
  ~ In k (map fst kvs) ->
  fold_left (fun m '(s, c) => <[s := c]> m) kvs m !! k = m !! k.
Proof.
  revert m. induction kvs as [| [s c] kvs IH]; intros m H; simpl; [reflexivity |].
  simpl in H. rewrite IH by tauto. apply lookup_insert_ne. tauto.
Qed.

Lemma fold_insert_in (kvs : list (string * rgb)) (m : gmap string rgb) (k : string) (v : rgb) :
  List.NoDup (map fst kvs) -> In (k, v) kvs ->
  fold_left (fun m '(s, c) => <[s := c]> m) kvs m !! k = Some v.
Proof.
  revert m. induction kvs as [| [s c] kvs IH]; intros m Hnd Hin; [destruct Hin |].
  simpl in *. inversion Hnd as [| ? ? Hnin Hnd']; subst.
  destruct Hin as [Heq | Hin].
  - injection Heq as -> ->. rewrite fold_insert_notin by exact Hnin.
    apply lookup_insert_eq.
  - now apply IH.
Qed.

Lemma zip_lookup_In {A B : Type} (l : list A) (k : list B) (i : nat) (a : A) (b : B) :
  l !! i = Some a -> k !! i = Some b -> In (a, b) (zip l k).
Proof.
  revert k i. induction l as [| x l IH]; intros [| y k] [| i] Ha Hb;
    simpl in *; try discriminate.
  - left. congruence.
  - right. eapply IH; eassumption.
Qed.

Lemma zip_fst_subset {A B : Type} (l : list A) (k : list B) (a : A) :
  In a (map fst (zip l k)) -> In a l.
Proof.
  revert k. induction l as [| x l IH]; intros [| y k] H; simpl in *; try tauto.
  destruct H as [H | H]; [now left | right; eauto].
Qed.

Lemma zip_fst_NoDup {A B : Type} (l : list A) (k : list B) :
  List.NoDup l -> List.NoDup (map fst (zip l k)).
Proof.
  revert k. induction l as [| x l IH]; intros [| y k] H; simpl; try constructor.
  - inversion H; subst. intros Hin. apply zip_fst_subset in Hin. contradiction.
  - inversion H; subst. now apply IH.
Qed.

Lemma firstn_subset {A : Type} (n : nat) (l : list A) (a : A) :
  In a (firstn n l) -> In a l.
Proof.
  revert l. induction n as [| n IH]; intros [| b l] H; simpl in *; try tauto.
  destruct H as [H | H]; [now left | right; eauto].
Qed.

Lemma NoDup_firstn {A : Type} (n : nat) (l : list A) :
  List.NoDup l -> List.NoDup (firstn n l).
Proof.
  revert n. induction l as [| x l IH]; intros [| n] H; simpl; try constructor.
  - inversion H; subst. intros Hin. apply firstn_subset in Hin. contradiction.
  - inversion H; subst. now apply IH.
Qed.

Lemma top_species_NoDup (data : table) : List.NoDup (top_species_of data).
Proof.
  unfold top_species_of. rewrite <- List.firstn_map. apply NoDup_firstn.
  apply value_counts_spec.
Qed.

Lemma make_color_map_rank (tops : list string) (i : nat) (sp : string) :
  List.NoDup tops -> (length tops <= 10)%nat -> tops !! i = Some sp ->
  is_Some (colors !! i) /\ make_color_map tops !! sp = colors !! i.
Proof.
  intros Hnd Hlen Hi.
  assert (Hlt : (i < length colors)%nat).
  { apply lookup_lt_Some in Hi. simpl. lia. }
  destruct (lookup_lt_is_Some_2 colors i Hlt) as [c Hc].
  split; [eauto |]. rewrite Hc. unfold make_color_map.
  apply fold_insert_in; [now apply zip_fst_NoDup | eapply zip_lookup_In; eassumption].
Qed.

Lemma make_color_map_other (tops : list string) (sp : string) :
  ~ In sp tops -> make_color_map tops !! sp = None.
Proof.
  intros H. unfold make_color_map. rewrite fold_insert_notin; [apply lookup_empty |].
  intros Hin. apply zip_fst_subset in Hin. contradiction.
Qed.

Lemma layer_rows_species (pts : table) :
  map spp_com (layer_rows pts) = map spp_com (map fill_row pts).
Proof.
  unfold layer_rows. generalize (make_color_map (top_species_of (map fill_row pts))).
  intros cm. rewrite (List.map_map (paint cm)). reflexivity.
Qed.

Lemma layer_rows_color (pts : table) (r : row) :
  In r (layer_rows pts) ->
  exists sp,
    spp_com r = Some sp /\
    color r = Some (default gray (make_color_map (top_species_of (layer_rows pts)) !! sp)).
Proof.
  assert (Htops : top_species_of (layer_rows pts) = top_species_of (map fill_row pts)).
  { unfold top_species_of. now rewrite layer_rows_species. }
  rewrite Htops. unfold layer_rows. intros H.
  apply in_map_iff in H. destruct H as (f & <- & Hf).
  apply in_map_iff in Hf. destruct Hf as (r0 & <- & _).
  eexists. split; reflexivity.
Qed.

Lemma colors_NoDup : List.NoDup colors.
Proof.
  unfold colors. repeat constructor; simpl; intuition discriminate.
Qed.

Lemma gray_not_in_colors : ~ In gray colors.
Proof. unfold colors, gray. simpl. intuition discriminate. Qed.

(** X2.  On every map the colour of a point is decided by the rank of its
    species among the points of that map: a point whose species is the
    [i]-th most frequent, for [i] below ten, gets the [i]-th colour of the
    palette, and a point whose species is not among the ten most frequent
    gets gray.  Every point has a species, the missing ones having become
    "Unknown". *)
Theorem map_point_colors (s : session) (df_points : loc) (t : table) :
  frames s !! df_points = Some t ->
  exists (s' : session) (evs : list event),
    build_pydeck_map df_points s = (inr tt, s') /\
    screen s' = (screen s ++ evs)%list /\
    forall d, In (st_pydeck_chart d) evs ->
      forall r, In r (layer_data d) ->
        exists sp,
          spp_com r = Some sp /\
          (forall i,
              map fst (firstn 10 (value_counts (map spp_com (layer_data d)))) !! i = Some sp ->
              is_Some (colors !! i) /\ color r = colors !! i) /\
          (~ In sp (map fst (firstn 10 (value_counts (map spp_com (layer_data d))))) ->
           color r = Some gray).
Proof.
  intros H. destruct (build_pydeck_map_run s df_points t H) as (h' & Hrun & _).
  eexists _, (map_events t). split; [exact Hrun |]. split; [reflexivity |].
  intros d Hd r Hr. apply map_events_chart in Hd. destruct Hd as [_ Hd].
  rewrite Hd in *. fold (top_species_of (layer_rows (map_points t))).
  destruct (layer_rows_color _ _ Hr) as (sp & Hsp & Hcol).
  exists sp. split; [exact Hsp |]. split.
  - intros i Hi.
    destruct (make_color_map_rank _ i sp (top_species_NoDup _) (top_species_length _) Hi)
      as [[c Hc] Hlook].
    split; [eauto |]. rewrite Hcol, Hlook, Hc. reflexivity.
  - intros Hnot. now rewrite Hcol, make_color_map_other.
Qed.

Lemma map_point_colors_witness :
  frames sample_session !! 0%nat = Some sample_table /\
  exists (s' : session) (evs : list event),
    build_pydeck_map 0%nat sample_session = (inr tt, s') /\
    screen s' = (screen sample_session ++ evs)%list /\
    forall d, In (st_pydeck_chart d) evs ->
      forall r, In r (layer_data d) ->
        exists sp,
          spp_com r = Some sp /\
          (forall i,
              map fst (firstn 10 (value_counts (map spp_com (layer_data d)))) !! i = Some sp ->
              is_Some (colors !! i) /\ color r = colors !! i) /\
          (~ In sp (map fst (firstn 10 (value_counts (map spp_com (layer_data d))))) ->
           color r = Some gray).
Proof.
  split; [reflexivity |].
  apply (map_point_colors sample_session 0%nat sample_table). reflexivity.
Defined.

(** X3.  On every map two points whose species are both among the ten most
    frequent have the same colour only if they have the same species, and
    no such point is gray: the palette separates the top species from one
    another and from the rest. *)
Theorem map_colors_separate_species (s : session) (df_points : loc) (t : table) :
  frames s !! df_points = Some t ->
  exists (s' : session) (evs : list event),
    build_pydeck_map df_points s = (inr tt, s') /\
    screen s' = (screen s ++ evs)%list /\
    forall d, In (st_pydeck_chart d) evs ->
      forall r1 r2 sp1 sp2,
        In r1 (layer_data d) -> In r2 (layer_data d) ->
        spp_com r1 = Some sp1 -> spp_com r2 = Some sp2 ->
        In sp1 (map fst (firstn 10 (value_counts (map spp_com (layer_data d))))) ->
        In sp2 (map fst (firstn 10 (value_counts (map spp_com (layer_data d))))) ->
        color r1 <> Some gray /\ (color r1 = color r2 -> sp1 = sp2).
Proof.
  intros H. destruct (build_pydeck_map_run s df_points t H) as (h' & Hrun & _).
  eexists _, (map_events t). split; [exact Hrun |]. split; [reflexivity |].
  intros d Hd r1 r2 sp1 sp2 Hr1 Hr2 Hs1 Hs2 Ht1 Ht2.
  apply map_events_chart in Hd. destruct Hd as [_ Hd]. rewrite Hd in *.
  fold (top_species_of (layer_rows (map_points t))) in Ht1, Ht2.
  set (tops := top_species_of (layer_rows (map_points t))) in *.
  assert (Hrank : forall r sp, In r (layer_rows (map_points t)) -> spp_com r = Some sp ->
            In sp tops ->
            exists i c, tops !! i = Some sp /\ colors !! i = Some c /\ color r = Some c).
  { intros r sp Hr Hs Ht.
    destruct (layer_rows_color _ _ Hr) as (sp' & Hsp' & Hcol).
    assert (sp' = sp) by congruence. subst sp'.
    apply list_elem_of_In, list_elem_of_lookup in Ht. destruct Ht as [i Hi].
    destruct (make_color_map_rank tops i sp (top_species_NoDup _) (top_species_length _) Hi)
      as [[c Hc] Hlook].
    exists i, c. split; [exact Hi |]. split; [exact Hc |].
    fold tops in Hcol. now rewrite Hcol, Hlook, Hc. }
  destruct (Hrank r1 sp1 Hr1 Hs1 Ht1) as (i & c1 & Hi & Hc1 & Hcol1).
  destruct (Hrank r2 sp2 Hr2 Hs2 Ht2) as (j & c2 & Hj & Hc2 & Hcol2).
  split.
  - rewrite Hcol1. intros Heq. injection Heq as ->.
    apply gray_not_in_colors. apply list_elem_of_In, list_elem_of_lookup. eauto.
  - rewrite Hcol1, Hcol2. intros Heq. injection Heq as ->.
    assert (i = j)
      by (eapply NoDup_lookup; [apply NoDup_ListNoDup, colors_NoDup | eassumption ..]).
    subst j. congruence.
Qed.

Lemma map_colors_separate_species_witness :
  frames sample_session !! 0%nat = Some sample_table /\
  exists (s' : session) (evs : list event),
    build_pydeck_map 0%nat sample_session = (inr tt, s') /\
    screen s' = (screen sample_session ++ evs)%list /\
    forall d, In (st_pydeck_chart d) evs ->
      forall r1 r2 sp1 sp2,
        In r1 (layer_data d) -> In r2 (layer_data d) ->
        spp_com r1 = Some sp1 -> spp_com r2 = Some sp2 ->
        In sp1 (map fst (firstn 10 (value_counts (map spp_com (layer_data d))))) ->
        In sp2 (map fst (firstn 10 (value_counts (map spp_com (layer_data d))))) ->
        color r1 <> Some gray /\ (color r1 = color r2 -> sp1 = sp2).
Proof.
  split; [reflexivity |].
  apply (map_colors_separate_species sample_session 0%nat sample_table). reflexivity.
Defined.

Lemma legend_entries (cm : gmap string rgb) (k : nat) (tops : list string) (cols : list rgb) :
  (forall j sp, tops !! j = Some sp -> is_Some (cols !! j) /\ cm !! sp = cols !! j) ->
  map (fun '(i, species) =>
         st_markdown (i mod 2)%nat [FHex (default gray (cm !! species)); FStr (Some species)])
      (enumerate_from k tops) =
  map (fun '(i, (species, c)) => st_markdown (i mod 2)%nat [FHex c; FStr (Some species)])
      (enumerate_from k (zip tops cols)).
Proof.
  revert k cols. induction tops as [| sp tops IH]; intros k cols H; [reflexivity |].
  destruct (H 0%nat sp eq_refl) as [[c Hc] Hsp].
  destruct cols as [| c' cols]; [discriminate |].
  simpl in Hc. injection Hc as ->. simpl in Hsp. simpl. rewrite Hsp. simpl.
  f_equal. apply IH. intros j sp' Hj. exact (H (S j) sp' Hj).
Qed.

(** X4.  The legend under a map lists the ten most frequent species of the
    map's points (fewer when there are fewer), most frequent first: entry
    [i] stands in column [i mod 2] and carries the [i]-th colour of the
    palette, which is the colour of the points of that species. *)
Theorem map_legend_matches_palette (s : session) (df_points : loc) (t : table) :
  frames s !! df_points = Some t ->
  exists (s' : session) (evs : list event),
    build_pydeck_map df_points s = (inr tt, s') /\
    screen s' = (screen s ++ evs)%list /\
    forall d, In (st_pydeck_chart d) evs ->
      exists tops : list string,
        tops = map fst (firstn 10 (value_counts (map spp_com (layer_data d)))) /\
        (length tops <= 10)%nat /\
        evs =
          st_pydeck_chart d :: st_subheader [Lit "Legend: Top 10 Species"] ::
          map (fun '(i, (species, c)) =>
                 st_markdown (i mod 2)%nat [FHex c; FStr (Some species)])
              (enumerate (zip tops colors)) /\
        forall r i sp, In r (layer_data d) -> spp_com r = Some sp ->
                       tops !! i = Some sp -> color r = colors !! i.
Proof.
  intros H. destruct (build_pydeck_map_run s df_points t H) as (h' & Hrun & _).
  eexists _, (map_events t). split; [exact Hrun |]. split; [reflexivity |].
  intros d Hd. pose proof (map_events_chart _ _ Hd) as [Hne Hdata].
  exists (top_species_of (layer_rows (map_points t))).
  assert (Htops : top_species_of (layer_rows (map_points t)) =
                  top_species_of (map fill_row (map_points t))).
  { unfold top_species_of. now rewrite layer_rows_species. }
  split; [rewrite Hdata; reflexivity |]. split; [apply top_species_length |]. split.
  - unfold map_events in *. destruct (map_points t) as [| r0 pts] eqn:E; [congruence |].
    destruct Hd as [Hd | [Hd | Hd]];
      [| discriminate | now apply legend_no_chart in Hd].
    rewrite <- Hd. f_equal. f_equal. rewrite Htops. unfold legend, enumerate.
    apply legend_entries. intros j sp Hj.
    apply make_color_map_rank;
      [apply top_species_NoDup | apply top_species_length | exact Hj].
  - intros r i sp Hr Hsp Hi. rewrite Hdata in Hr.
    destruct (layer_rows_color _ _ Hr) as (sp' & Hsp' & Hcol).
    assert (sp' = sp) by congruence. subst sp'.
    destruct (make_color_map_rank _ i sp (top_species_NoDup _) (top_species_length _) Hi)
      as [[c Hc] Hlook].
    now rewrite Hcol, Hlook, Hc.
Qed.

Lemma map_legend_matches_palette_witness :
  frames sample_session !! 0%nat = Some sample_table /\
  exists (s' : session) (evs : list event),
    build_pydeck_map 0%nat sample_session = (inr tt, s') /\
    screen s' = (screen sample_session ++ evs)%list /\
    forall d, In (st_pydeck_chart d) evs ->
      exists tops : list string,
        tops = map fst (firstn 10 (value_counts (map spp_com (layer_data d)))) /\
        (length tops <= 10)%nat /\
        evs =
          st_pydeck_chart d :: st_subheader [Lit "Legend: Top 10 Species"] ::
          map (fun '(i, (species, c)) =>
                 st_markdown (i mod 2)%nat [FHex c; FStr (Some species)])
              (enumerate (zip tops colors)) /\
        forall r i sp, In r (layer_data d) -> spp_com r = Some sp ->
                       tops !! i = Some sp -> color r = colors !! i.
Proof.
  split; [reflexivity |].
  apply (map_legend_matches_palette sample_session 0%nat sample_table). reflexivity.
Defined.

(** ** The map: where it is centred *)

Lemma sum_in_range (l : list num) (lo hi : Q) :
  (forall x, In x l -> exists q, x = Fin q /\ (lo <= q)%Q /\ (q <= hi)%Q) ->
  exists sm,
    fold_right num_add (of_Z 0) l = Fin sm /\
    (lo * inject_Z (Z.of_nat (length l)) <= sm)%Q /\
    (sm <= hi * inject_Z (Z.of_nat (length l)))%Q.
Proof.
  induction l as [| x l IH]; intros H.
  - exists 0%Q. simpl. split; [reflexivity |].
    split; rewrite Qmult_0_r; apply Qle_refl.
  - destruct IH as (sm & Hsm & Hlo & Hhi); [intros y Hy; apply H; now right |].
    destruct (H x) as (q & -> & Hq1 & Hq2); [now left |].
    exists (q + sm)%Q. cbn [fold_right length]. rewrite Hsm. split; [reflexivity |].
    assert (Hn : (inject_Z (Z.of_nat (S (length l))) ==
                  1 + inject_Z (Z.of_nat (length l)))%Q).
    { rewrite Nat2Z.inj_succ, <- Z.add_1_l, inject_Z_plus. reflexivity. }
    rewrite Hn, !Qmult_plus_distr_r, !Qmult_1_r.
    split; apply Qplus_le_compat; assumption.
Qed.

Lemma filter_present_all (l : list num) :
  (forall x, In x l -> exists q, x = Fin q) -> List.filter notna l = l.
Proof.
  induction l as [| x l IH]; intros H; simpl; [reflexivity |].
  destruct (H x) as [q ->]; [now left |]. simpl. rewrite IH; [reflexivity |].
  intros y Hy. apply H. now right.
Qed.

Lemma series_mean_in_range (l : list num) (lo hi : Q) :
  l <> [] ->
  (forall x, In x l -> exists q, x = Fin q /\ (lo <= q)%Q /\ (q <= hi)%Q) ->
  exists m, series_mean l = Fin m /\ (lo <= m)%Q /\ (m <= hi)%Q.
Proof.
  intros Hne H. unfold series_mean.
  rewrite filter_present_all by (intros x Hx; destruct (H x Hx) as (q & -> & _); eauto).
  destruct (sum_in_range l lo hi H) as (sm & -> & Hlo & Hhi).
  destruct l as [| x l]; [congruence |].
  set (n := inject_Z (Z.of_nat (length (x :: l)))) in *.
  assert (Hpos : (0 < n)%Q).
  { unfold n. rewrite <- (Zlt_Qlt 0). simpl length. lia. }
  exists (sm / n)%Q. split; [reflexivity |]. split.
  - now apply Qle_shift_div_l.
  - now apply Qle_shift_div_r.
Qed.

(** X5.  A map is always centred inside the valid coordinate ranges: the
    latitude of its initial view is a finite number in [-90, 90] and the
    longitude a finite number in [-180, 180], both being the means of the
    coordinates of the points of the layer. *)
Theorem map_center_in_range (s : session) (df_points : loc) (t : table) :
  frames s !! df_points = Some t ->
  exists (s' : session) (evs : list event),
    build_pydeck_map df_points s = (inr tt, s') /\
    screen s' = (screen s ++ evs)%list /\
    forall d, In (st_pydeck_chart d) evs ->
      latitude d = series_mean (map point_y (layer_data d)) /\
      longitude d = series_mean (map point_x (layer_data d)) /\
      exists lat lon : Q,
        latitude d = Fin lat /\ longitude d = Fin lon /\
        (-90 # 1 <= lat)%Q /\ (lat <= 90 # 1)%Q /\
        (-180 # 1 <= lon)%Q /\ (lon <= 180 # 1)%Q.
Proof.
  intros H. destruct (build_pydeck_map_run s df_points t H) as (h' & Hrun & _).
  eexists _, (map_events t). split; [exact Hrun |]. split; [reflexivity |].
  intros d Hd. pose proof (map_events_chart _ _ Hd) as [Hne Hdata].
  assert (Hcenter : latitude d = series_mean (map point_y (layer_data d)) /\
                    longitude d = series_mean (map point_x (layer_data d))).
  { unfold map_events in Hd. destruct (map_points t) as [| r0 pts]; [congruence |].
    destruct Hd as [Hd | [Hd | Hd]];
      [| discriminate | now apply legend_no_chart in Hd].
    injection Hd as <-. split; reflexivity. }
  destruct Hcenter as [Hlat Hlon]. split; [exact Hlat |]. split; [exact Hlon |].
  assert (Hpos : forall r, In r (layer_data d) -> valid_position r).
  { intros r Hr. rewrite Hdata in Hr.
    destruct (Forall2_In_r _ _ _ _ (layer_rows_shown (map_points t)) Hr)
      as (r0 & Hr0 & Hx & Hy & _).
    apply map_points_In in Hr0. destruct Hr0 as [_ (x & y & Hpx & Hpy & Hb)].
    exists x, y. rewrite Hx, Hy. tauto. }
  assert (Hnonempty : forall A (f : row -> A), map f (layer_data d) <> []).
  { intros A f. rewrite Hdata. pose proof (layer_rows_nonempty _ Hne).
    destruct (layer_rows (map_points t)); [congruence | discriminate]. }
  destruct (series_mean_in_range (map point_y (layer_data d)) (-90 # 1) (90 # 1))
    as (lat & Elat & Hlat1 & Hlat2); [apply Hnonempty | |].
  { intros v Hv. apply in_map_iff in Hv. destruct Hv as (r & <- & Hr).
    destruct (Hpos r Hr) as (x & y & _ & Hy & _ & _ & H3 & H4). eauto. }
  destruct (series_mean_in_range (map point_x (layer_data d)) (-180 # 1) (180 # 1))
    as (lon & Elon & Hlon1 & Hlon2); [apply Hnonempty | |].
  { intros v Hv. apply in_map_iff in Hv. destruct Hv as (r & <- & Hr).
    destruct (Hpos r Hr) as (x & y & Hx & _ & H1 & H2 & _). eauto. }
  exists lat, lon. rewrite Hlat, Hlon. auto 10.
Qed.

Lemma map_center_in_range_witness :
  frames sample_session !! 0%nat = Some sample_table /\
  exists (s' : session) (evs : list event),
    build_pydeck_map 0%nat sample_session = (inr tt, s') /\
    screen s' = (screen sample_session ++ evs)%list /\
    forall d, In (st_pydeck_chart d) evs ->
      latitude d = series_mean (map point_y (layer_data d)) /\
      longitude d = series_mean (map point_x (layer_data d)) /\
      exists lat lon : Q,
        latitude d = Fin lat /\ longitude d = Fin lon /\
        (-90 # 1 <= lat)%Q /\ (lat <= 90 # 1)%Q /\
        (-180 # 1 <= lon)%Q /\ (lon <= 180 # 1)%Q.
Proof.
  split; [reflexivity |].
  apply (map_center_in_range sample_session 0%nat sample_table). reflexivity.
Defined.

(** ** The bar chart for any series and any [top_n] *)

Lemma map_lookup {A B : Type} (f : A -> B) (l : list A) (i : nat) :
  map f l !! i = option_map f (l !! i).
Proof.
  revert i. induction l as [| a l IH]; intros [| i]; simpl; auto.
Qed.

(** X6.  [display_bar_chart] returns normally on every counts Series and
    every [top_n], the empty Series and [top_n = 0] included, and leaves the
    store as it was.  It draws one figure with [min top_n n] bars, where [n]
    is the length of the Series: bar [i] carries the label and the count of
    entry [i] of the Series and colour [i mod 20] of the palette.  Below the
    "Top 10" header it prints [min 10 (min top_n n)] lines, line [i] giving
    entry [i] of the Series. *)
Theorem display_bar_chart_shape (c : list (string * nat)) (title : text) (top_n : nat)
    (s : session) :
  exists (labels : list string) (heights cols : list nat) (lines : list event),
    display_bar_chart c title top_n s =
      (inr tt,
       mkSession (frames s)
         (screen s ++
          st_pyplot (BarFigure labels heights cols labels "Number of Trees" title)
          :: st_subheader [Lit "Top 10 Species by Count"] :: lines)%list) /\
    length labels = Nat.min top_n (length c) /\
    length heights = Nat.min top_n (length c) /\
    length cols = Nat.min top_n (length c) /\
    length lines = Nat.min 10 (Nat.min top_n (length c)) /\
    (forall i sp k, (i < top_n)%nat -> c !! i = Some (sp, k) ->
       labels !! i = Some sp /\ heights !! i = Some k /\ cols !! i = Some (i mod 20)%nat /\
       ((i < 10)%nat ->
        lines !! i = Some (st_write [FStr (Some sp); Lit ": "; FInt (Z.of_nat k)]))).
Proof.
  eexists _, _, _, _. split; [apply display_bar_chart_run |].
  rewrite !List.length_map, List.length_seq, !List.length_firstn.
  do 4 (split; [reflexivity |]).
  intros i sp k Hi Hc. repeat split.
  - rewrite map_lookup, lookup_take_lt, Hc by assumption. reflexivity.
  - rewrite map_lookup, lookup_take_lt, Hc by assumption. reflexivity.
  - rewrite map_lookup, lookup_seq_lt; [reflexivity |].
    apply lookup_lt_Some in Hc. lia.
  - intros Hten. rewrite map_lookup, !lookup_take_lt, Hc by assumption. reflexivity.
Qed.

(** ** The diameter view: chart or message *)

Lemma value_counts_none (col : list (option string)) :
  (forall v, In v col -> v = None) -> value_counts col = [].
Proof.
  intros H. unfold value_counts, tallies.
  assert (Hd : dropna col = []).
  { induction col as [| v col IH]; [reflexivity |].
    rewrite (H v) by now left. simpl. apply IH. intros u Hu. apply H. now right. }
  now rewrite Hd.
Qed.

Lemma sum_counts_list_sum (c : list (string * nat)) :
  sum_counts c = list_sum (map snd c).
Proof. induction c as [| e c IH]; simpl; [reflexivity | now rewrite IH]. Qed.

Lemma present_species_rows (p : row -> bool) (t : table) :
  length (dropna (map spp_com (List.filter p t))) =
  count_rows (fun r => p r && negb (bool_decide (spp_com r = None))) t.
Proof.
  unfold count_rows. induction t as [| r t IH]; simpl; [reflexivity |].
  destruct (p r); simpl; [| exact IH].
  destruct (spp_com r) as [sp |]; simpl; now rewrite IH.
Qed.

(** X7.  In the diameter view the choice between the pie chart and the
    message is made on the species counts, not on the rows.  With finite
    smallest and largest dbh whose truncations [st.slider] accepts (the
    first below the second, both safe integers), and whatever range [a, b]
    the slider returns, the view reports the number of rows with
    [a <= dbh <= b]; it then shows "No trees found in this diameter range."
    exactly when none of these rows has a species, even if the reported
    number is positive, and otherwise draws one pie whose wedges, one per
    species, add up to the number of these rows that have a species. *)
Theorem diameter_view_pie_or_message (s : session) (df : loc) (t : table) (w : widgets)
    (mn mx : Q) (lo hi : Z) :
  frames s !! df = Some t ->
  series_min (map dbh t) = Fin mn ->
  series_max (map dbh t) = Fin mx ->
  py_int (Fin mn) = inr lo ->
  py_int (Fin mx) = inr hi ->
  lo < hi -> - max_safe_integer <= lo -> hi <= max_safe_integer ->
  exists (a b : Z) (s' : session) (last : event),
    slider w "Select diameter range (in inches):" lo hi = (a, b) /\
    page_diameter df w s = (inr tt, s') /\
    screen s' =
      (screen s ++
       [ st_header [Lit "Filter Trees by Diameter"];
         st_slider "Select diameter range (in inches):" lo hi;
         st_write [Lit "Total trees in selected range: ";
                   FInt (Z.of_nat (count_rows (in_dbh_range (of_Z a) (of_Z b)) t))];
         last ])%list /\
    ((forall r, In r t -> in_dbh_range (of_Z a) (of_Z b) r = true -> spp_com r = None) ->
     last = st_write [Lit "No trees found in this diameter range."]) /\
    ((exists r, In r t /\ in_dbh_range (of_Z a) (of_Z b) r = true /\ spp_com r <> None) ->
     exists values labels,
       last = st_pyplot (PieFigure values labels
                           [Lit "Species Distribution for DBH "; FInt a; Lit "–"; FInt b]) /\
       length values = length labels /\
       List.NoDup labels /\
       list_sum values =
         count_rows (fun r => in_dbh_range (of_Z a) (of_Z b) r &&
                              negb (bool_decide (spp_com r = None))) t).
Proof.
  intros H Hmin Hmax Hlo Hhi Hlt Hsafe_lo Hsafe_hi.
  pose proof (slider_bounds_finite t mn mx Hmin Hmax) as Hb.
  simpl in Hlo, Hhi. injection Hlo as Hlo. injection Hhi as Hhi. rewrite Hlo, Hhi in Hb.
  assert (Hacc : slider_accepts lo hi = true) by (apply slider_accepts_iff; auto).
  destruct (page_diameter_run s df t w H) as (h' & Hrun & _).
  unfold diameter_result in Hrun. rewrite Hb, Hacc in Hrun.
  destruct (slider w "Select diameter range (in inches):" lo hi) as [a b] eqn:Esel.
  unfold diameter_events in Hrun. rewrite Hb, Hacc, Esel in Hrun. cbn [fst snd] in Hrun.
  unfold selected_rows in Hrun. cbn [fst snd] in Hrun.
  set (rows := List.filter (in_dbh_range (of_Z a) (of_Z b)) t) in *.
  eexists a, b, _, _.
  split; [reflexivity |].
  split; [exact Hrun |]. split; [reflexivity |]. split.
  - intros Hnone. rewrite value_counts_none; [reflexivity |].
    intros v Hv. apply in_map_iff in Hv. destruct Hv as (r & <- & Hr).
    apply filter_In_iff in Hr. destruct Hr as [Hr Hrange]. now apply Hnone.
  - intros (r & Hr & Hrange & Hsp).
    destruct (value_counts_spec (map spp_com rows)) as (Hnd & _ & Hsum & _).
    assert (Hpos : (0 < length (dropna (map spp_com rows)))%nat).
    { destruct (spp_com r) as [sp |] eqn:E; [| congruence].
      assert (Hin : In sp (dropna (map spp_com rows))).
      { apply dropna_In. rewrite <- E. apply in_map. apply filter_In_iff. auto. }
      destruct (dropna (map spp_com rows)); [destruct Hin | simpl; lia]. }
    destruct (value_counts (map spp_com rows)) as [| e c] eqn:Ec.
    { simpl in Hsum. lia. }
    eexists _, _. split; [reflexivity |].
    split; [now rewrite !List.length_map |]. split; [exact Hnd |].
    rewrite <- sum_counts_list_sum, Hsum. apply present_species_rows.
Qed.

Lemma diameter_view_pie_or_message_witness :
  let w := default_user TreeDiameterFilter in
  let s := mkSession {[ 0%nat := nameless_table ]} [] in
  frames s !! 0%nat = Some nameless_table /\
  series_min (map dbh nameless_table) = Fin (4 # 1) /\
  series_max (map dbh nameless_table) = Fin (6 # 1) /\
  py_int (Fin (4 # 1)) = inr 4 /\ py_int (Fin (6 # 1)) = inr 6 /\
  4 < 6 /\ - max_safe_integer <= 4 /\ 6 <= max_safe_integer /\
  exists s' : session,
    page_diameter 0%nat w s = (inr tt, s') /\
    screen s' =
      [ st_header [Lit "Filter Trees by Diameter"];
        st_slider "Select diameter range (in inches):" 4 6;
        st_write [Lit "Total trees in selected range: "; FInt 2];
        st_write [Lit "No trees found in this diameter range."] ].
Proof.
  cbv zeta. split; [reflexivity |]. split; [reflexivity |]. split; [reflexivity |].
  split; [reflexivity |]. split; [reflexivity |]. split; [lia |].
  split; [unfold max_safe_integer; lia |]. split; [unfold max_safe_integer; lia |].
  destruct (diameter_view_pie_or_message (mkSession {[ 0%nat := nameless_table ]} [])
              0%nat nameless_table (default_user TreeDiameterFilter) (4 # 1) (6 # 1) 4 6)
    as (a & b & s' & last & Hsel & Hrun & Hscr & Hmsg & _);
    [reflexivity | reflexivity | reflexivity | reflexivity | reflexivity | lia
     | unfold max_safe_integer; lia | unfold max_safe_integer; lia |].
  injection Hsel as <- <-.
  exists s'. split; [exact Hrun |]. rewrite Hscr, Hmsg; [reflexivity |].
  intros r [<- | [<- | []]] _; reflexivity.
Defined.

Lemma display_bar_chart_shape_witness :
  exists (labels : list string) (heights cols : list nat) (lines : list event),
    display_bar_chart [("Elm", 2%nat); ("Oak", 1%nat)] [Lit "Species"] 1 empty_session =
      (inr tt,
       mkSession ∅
         (st_pyplot (BarFigure labels heights cols labels "Number of Trees" [Lit "Species"])
          :: st_subheader [Lit "Top 10 Species by Count"] :: lines)) /\
    length labels = 1%nat /\ length lines = 1%nat /\
    labels !! 0%nat = Some "Elm" /\ heights !! 0%nat = Some 2%nat /\
    lines !! 0%nat = Some (st_write [FStr (Some "Elm"); Lit ": "; FInt 2]).
Proof.
  destruct (display_bar_chart_shape [("Elm", 2%nat); ("Oak", 1%nat)] [Lit "Species"] 1
              empty_session)
    as (labels & heights & cols & lines & Hrun & Hl & _ & _ & Hn & Hat).
  destruct (Hat 0%nat "Elm" 2%nat) as (H1 & H2 & _ & H3); [lia | reflexivity |].
  exists labels, heights, cols, lines. split; [exact Hrun |].
  split; [exact Hl |]. split; [exact Hn |]. split; [exact H1 |]. split; [exact H2 |].
  apply H3. lia.
Defined.

(** ** The diameter view: the full range *)

(** X8.  When [st.slider] accepts the bounds and the truncations do not
    cut into the data, that is when [int(min)] is not above the smallest
    dbh and [int(max)] not below the largest (non-negative diameters with an
    integer maximum, for instance), leaving the slider on its full range
    counts every row with a numeric dbh: the reported total is the number
    of rows whose dbh is not missing. *)
Theorem diameter_full_range_counts_all (s : session) (df : loc) (t : table) (w : widgets)
    (mn mx : Q) (lo hi : Z) :
  frames s !! df = Some t ->
  series_min (map dbh t) = Fin mn ->
  series_max (map dbh t) = Fin mx ->
  py_int (Fin mn) = inr lo ->
  py_int (Fin mx) = inr hi ->
  lo < hi -> - max_safe_integer <= lo -> hi <= max_safe_integer ->
  slider w "Select diameter range (in inches):" lo hi = (lo, hi) ->
  (inject_Z lo <= mn)%Q ->
  (mx <= inject_Z hi)%Q ->
  exists (s' : session) (last : event),
    page_diameter df w s = (inr tt, s') /\
    screen s' =
      (screen s ++
       [ st_header [Lit "Filter Trees by Diameter"];
         st_slider "Select diameter range (in inches):" lo hi;
         st_write [Lit "Total trees in selected range: ";
                   FInt (Z.of_nat (count_rows (fun r => notna (dbh r)) t))];
         last ])%list.
Proof.
  intros H Hmin Hmax Hlo Hhi Hlt Hsafe_lo Hsafe_hi Hsel Hcut_lo Hcut_hi.
  pose proof (slider_bounds_finite t mn mx Hmin Hmax) as Hb.
  simpl in Hlo, Hhi. injection Hlo as Hlo. injection Hhi as Hhi. rewrite Hlo, Hhi in Hb.
  assert (Hacc : slider_accepts lo hi = true) by (apply slider_accepts_iff; auto).
  destruct (page_diameter_run s df t w H) as (h' & Hrun & _).
  unfold diameter_result in Hrun. rewrite Hb, Hacc in Hrun.
  unfold diameter_events in Hrun. rewrite Hb, Hacc, Hsel in Hrun.
  unfold selected_rows in Hrun. cbn [fst snd] in Hrun.
  assert (Hrows : List.filter (in_dbh_range (of_Z lo) (of_Z hi)) t =
                  List.filter (fun r => notna (dbh r)) t).
  { apply filter_ext_in. intros r Hr.
    assert (Hin : In (dbh r) (map dbh t)) by now apply in_map.
    destruct (notna (dbh r)) eqn:E.
    - assert (Hne : dbh r <> NaN) by (intros E'; rewrite E' in E; discriminate).
      apply in_dbh_range_le. split.
      + apply (num_le_trans _ (Fin mn)); [now constructor |].
        rewrite <- Hmin. now apply series_min_lb.
      + apply (num_le_trans _ (Fin mx)); [| now constructor].
        rewrite <- Hmax. now apply series_max_ub.
    - destruct (dbh r) eqn:E'; try discriminate.
      unfold in_dbh_range. rewrite E'. reflexivity. }
  rewrite Hrows in Hrun. eexists _, _. split; [exact Hrun |]. reflexivity.
Qed.

Lemma diameter_full_range_counts_all_witness :
  let w := default_user TreeDiameterFilter in
  let s := mkSession {[ 0%nat := nameless_table ]} [] in
  frames s !! 0%nat = Some nameless_table /\
  series_min (map dbh nameless_table) = Fin (4 # 1) /\
  series_max (map dbh nameless_table) = Fin (6 # 1) /\
  4 < 6 /\ - max_safe_integer <= 4 /\ 6 <= max_safe_integer /\
  slider w "Select diameter range (in inches):" 4 6 = (4, 6) /\
  (inject_Z 4 <= 4 # 1)%Q /\ (6 # 1 <= inject_Z 6)%Q /\
  exists (s' : session) (last : event),
    page_diameter 0%nat w s = (inr tt, s') /\
    screen s' =
      ([] ++
       [ st_header [Lit "Filter Trees by Diameter"];
         st_slider "Select diameter range (in inches):" 4 6;
         st_write [Lit "Total trees in selected range: ";
                   FInt (Z.of_nat (count_rows (fun r => notna (dbh r)) nameless_table))];
         last ])%list.
Proof.
  cbv zeta. split; [reflexivity |]. split; [reflexivity |]. split; [reflexivity |].
  split; [lia |]. split; [unfold max_safe_integer; lia |].
  split; [unfold max_safe_integer; lia |]. split; [reflexivity |].
  split; [unfold Qle; simpl; lia |]. split; [unfold Qle; simpl; lia |].
  apply (diameter_full_range_counts_all (mkSession {[ 0%nat := nameless_table ]} [])
           0%nat nameless_table (default_user TreeDiameterFilter) (4 # 1) (6 # 1) 4 6);
    try reflexivity; try (unfold max_safe_integer; lia); unfold Qle; simpl; lia.
Defined.

(** ** The options of the select boxes *)

Lemma insert_sorted_Sorted (x : string) (l : list string) :
  Sorted (fun a b => String.leb a b = true) l ->
  Sorted (fun a b => String.leb a b = true) (insert_sorted x l).
Proof.
  induction l as [| y l IH]; simpl; intros H.
  - repeat constructor.
  - destruct (String.leb x y) eqn:E.
    + constructor; [exact H |]. now constructor.
    + assert (Hyx : String.leb y x = true).
      { destruct (String.leb_total x y) as [Hxy | Hyx]; [congruence | exact Hyx]. }
      inversion H as [| ? ? Hs Hhd]; subst.
      constructor; [now apply IH |].
      destruct l as [| z l]; simpl; [now constructor |].
      destruct (String.leb x z); constructor; [exact Hyx | now inversion Hhd].
Qed.

Lemma insert_sorted_NoDup (x : string) (l : list string) :
  ~ In x l -> List.NoDup l -> List.NoDup (insert_sorted x l).
Proof.
  induction l as [| y l IH]; simpl; intros Hx Hnd.
  - constructor; [tauto | constructor].
  - destruct (String.leb x y); [constructor; assumption |].
    inversion Hnd as [| ? ? Hy Hnd']; subst. constructor.
    + rewrite insert_sorted_In. intros [-> | Hin]; tauto.
    + apply IH; tauto.
Qed.

Lemma unique_NoDup (l : list string) : List.NoDup (unique l).
Proof.
  unfold unique.
  assert (Hgen : forall seen, List.NoDup seen ->
             List.NoDup (fold_left (fun seen y => if mem_string y seen then seen
                                                  else (seen ++ [y])%list) l seen)).
  { induction l as [| y l IH]; intros seen Hs; simpl; [exact Hs |].
    apply IH. destruct (mem_string y seen) eqn:E; [exact Hs |].
    apply NoDup_ListNoDup, NoDup_app. repeat split.
    - now apply NoDup_ListNoDup.
    - intros z Hz Hz'. apply list_elem_of_In in Hz.
      apply list_elem_of_In in Hz'. destruct Hz' as [<- | []].
      apply mem_string_In in Hz. congruence.
    - apply NoDup_singleton. }
  apply Hgen. constructor.
Qed.

Lemma options_of_spec (col : list (option string)) :
  List.NoDup (options_of col) /\
  Sorted (fun a b => String.leb a b = true) (options_of col) /\
  (forall x, In x (options_of col) <-> In (Some x) col).
Proof.
  split; [| split; [| intros x; apply options_of_In]]; unfold options_of, sorted.
  - pose proof (unique_NoDup (dropna col)) as Hnd.
    induction (unique (dropna col)) as [| y l IH]; simpl; [constructor |].
    inversion Hnd; subst. apply insert_sorted_NoDup; [| now apply IH].
    fold (sorted l). now rewrite sorted_In.
  - induction (unique (dropna col)) as [| y l IH]; simpl; [constructor |].
    now apply insert_sorted_Sorted.
Qed.

(** X9.  The select boxes of the neighborhood view and of the park view
    offer exactly the neighborhoods, respectively the parks, that occur in
    the table, each once, in ascending order; rows with a missing value
    contribute no option. *)
Theorem select_box_options (s : session) (df : loc) (t : table) (w : widgets) :
  frames s !! df = Some t ->
  exists (nbs parks : list string) (s1 s2 : session) (rest1 rest2 : list event),
    page_neighborhood df w s = (inr tt, s1) /\
    screen s1 =
      (screen s ++ st_header [Lit "Trees by Neighborhood"]
                :: st_selectbox "Select a neighborhood:" nbs :: rest1)%list /\
    page_parks df w s = (inr tt, s2) /\
    screen s2 =
      (screen s ++ st_header [Lit "Map of Trees in Parks"]
                :: st_selectbox "Choose a park:" parks :: rest2)%list /\
    List.NoDup nbs /\ Sorted (fun a b => String.leb a b = true) nbs /\
    (forall x, In x nbs <-> exists r, In r t /\ neighborhood r = Some x) /\
    List.NoDup parks /\ Sorted (fun a b => String.leb a b = true) parks /\
    (forall x, In x parks <-> exists r, In r t /\ park r = Some x).
Proof.
  intros H.
  destruct (page_neighborhood_run s df t w H) as (h1 & Hrun1 & _).
  destruct (page_parks_run s df t w H) as (h2 & Hrun2 & _).
  destruct (options_of_spec (map neighborhood t)) as (Hn1 & Hn2 & Hn3).
  destruct (options_of_spec (map park t)) as (Hp1 & Hp2 & Hp3).
  eexists (options_of (map neighborhood t)), (options_of (map park t)), _, _, _, _.
  split; [exact Hrun1 |]. split; [reflexivity |].
  split; [exact Hrun2 |]. split; [reflexivity |].
  split; [exact Hn1 |]. split; [exact Hn2 |]. split.
  - intros x. rewrite Hn3, in_map_iff. split; intros (r & Hr); exists r; tauto.
  - split; [exact Hp1 |]. split; [exact Hp2 |].
    intros x. rewrite Hp3, in_map_iff. split; intros (r & Hr); exists r; tauto.
Qed.

Lemma select_box_options_witness :
  let w := default_user TreesByNeighborhood in
  frames sample_session !! 0%nat = Some sample_table /\
  exists (nbs parks : list string) (s1 s2 : session) (rest1 rest2 : list event),
    page_neighborhood 0%nat w sample_session = (inr tt, s1) /\
    screen s1 =
      (screen sample_session ++ st_header [Lit "Trees by Neighborhood"]
                :: st_selectbox "Select a neighborhood:" nbs :: rest1)%list /\
    page_parks 0%nat w sample_session = (inr tt, s2) /\
    screen s2 =
      (screen sample_session ++ st_header [Lit "Map of Trees in Parks"]
                :: st_selectbox "Choose a park:" parks :: rest2)%list /\
    List.NoDup nbs /\ Sorted (fun a b => String.leb a b = true) nbs /\
    (forall x, In x nbs <-> exists r, In r sample_table /\ neighborhood r = Some x) /\
    List.NoDup parks /\ Sorted (fun a b => String.leb a b = true) parks /\
    (forall x, In x parks <-> exists r, In r sample_table /\ park r = Some x).
Proof.
  cbv zeta. split; [reflexivity |].
  apply (select_box_options sample_session 0%nat sample_table
           (default_user TreesByNeighborhood)).
  reflexivity.
Defined.

(** ** A whole run *)

(** X10.  A run of [main] can fail in the diameter view only.  With the
    neighborhood view or the park view selected it never raises, whatever
    the file holds and whatever the widgets return.  With the diameter view
    selected it raises exactly when [int] rejects the smallest or the
    largest dbh, with the exception [int] raises, or when [int] accepts
    both and [st.slider] rejects the two bounds (they coincide, or one is
    not a safe integer), with StreamlitAPIException; in each case the
    screen then shows the title and the view's header and nothing more.  A
    run that does not raise shows the title first and ends with the rule
    and the caption. *)
Theorem main_raises_only_on_dbh_bounds (str_to_num : string -> option num)
    (csv : list csv_row) (w : widgets) (s : session) :
  exists (res : exn + unit) (s' : session) (body : list event),
    main str_to_num csv w s = (res, s') /\
    screen s' = (screen s ++ st_title [Lit "Boston Trees Explorer"] :: body)%list /\
    (radio w <> TreeDiameterFilter -> res = inr tt) /\
    (res = inr tt ->
     exists evs,
       body =
         (evs ++
          [ st_write [Lit "---"];
            st_caption [Lit "Created for CS230 by Olivia Pusczko — Boston Trees Explorer"] ])%list) /\
    (forall e,
        res = inl e <->
        radio w = TreeDiameterFilter /\
        (py_int (series_min (map dbh (map (coerce_row str_to_num) csv))) = inl e \/
         ((exists lo, py_int (series_min (map dbh (map (coerce_row str_to_num) csv))) = inr lo) /\
          py_int (series_max (map dbh (map (coerce_row str_to_num) csv))) = inl e) \/
         (exists lo hi,
             py_int (series_min (map dbh (map (coerce_row str_to_num) csv))) = inr lo /\
             py_int (series_max (map dbh (map (coerce_row str_to_num) csv))) = inr hi /\
             ~ (lo < hi /\ - max_safe_integer <= lo /\ hi <= max_safe_integer) /\
             e = StreamlitAPIException))) /\
    (forall e, res = inl e -> body = [st_header [Lit "Filter Trees by Diameter"]]).
Proof.
  destruct (main_run str_to_num csv w s) as (h' & Hrun & _).
  set (t := map (coerce_row str_to_num) csv) in *.
  eexists _, _, _. split; [exact Hrun |]. split; [reflexivity |].
  unfold page_result, page_events, diameter_result, diameter_events, slider_bounds.
  destruct (radio w) eqn:Eradio.
  - split; [reflexivity |]. split; [eauto |].
    split; [| discriminate]. intros e. split; [discriminate | intros [? _]; discriminate].
  - split; [reflexivity |]. split; [eauto |].
    split; [| discriminate]. intros e. split; [discriminate | intros [? _]; discriminate].
  - split; [congruence |].
    destruct (py_int (series_min (map dbh t))) as [e1 | lo].
    { split; [discriminate |]. split; [| reflexivity].
      intros e. split.
      - intros Heq. split; [reflexivity |]. left. congruence.
      - intros [_ [Heq | [[[lo Hlo] _] | (lo & hi & Hlo & _)]]]; congruence. }
    destruct (py_int (series_max (map dbh t))) as [e2 | hi].
    { split; [discriminate |]. split; [| reflexivity].
      intros e. split.
      - intros Heq. split; [reflexivity |]. right. left. split; [eauto | congruence].
      - intros [_ [Heq | [[_ Heq] | (lo' & hi' & _ & Hhi & _)]]]; congruence. }
    destruct (slider_accepts lo hi) eqn:Eacc.
    + split; [| split; [| discriminate]].
      * intros _. eexists. reflexivity.
      * intros e. split; [discriminate |].
        intros [_ [Heq | [[_ Heq] | (lo' & hi' & Hlo & Hhi & Hrej & _)]]];
          try discriminate.
        injection Hlo as <-. injection Hhi as <-.
        apply slider_accepts_iff in Eacc. contradiction.
    + split; [discriminate |]. split; [| reflexivity].
      intros e. split.
      * intros Heq. split; [reflexivity |]. right. right.
        exists lo, hi. split; [reflexivity |]. split; [reflexivity |].
        split; [| congruence]. intros Hok. apply slider_accepts_iff in Hok. congruence.
      * intros [_ [Heq | [[_ Heq] | (lo' & hi' & _ & _ & _ & ->)]]];
          try discriminate. reflexivity.
Qed.

Lemma main_raises_only_on_dbh_bounds_witness :
  let w := default_user TreeDiameterFilter in
  (exists (s' : session),
      main read_unsigned text_csv w empty_session = (inl ValueError, s') /\
      screen s' = [ st_title [Lit "Boston Trees Explorer"];
                    st_header [Lit "Filter Trees by Diameter"] ]) /\
  (let csv := [ mkCsvRow (Some "Oak") (CStr "4") (CNum NaN) (CNum NaN) None None ] in
   exists (s' : session),
     main read_unsigned csv w empty_session = (inl StreamlitAPIException, s') /\
     screen s' = [ st_title [Lit "Boston Trees Explorer"];
                   st_header [Lit "Filter Trees by Diameter"] ]).
Proof.
  cbv zeta. split.
  - destruct (main_raises_only_on_dbh_bounds read_unsigned text_csv
                (default_user TreeDiameterFilter) empty_session)
      as (res & s' & body & Hrun & Hscr & _ & _ & Hraise & Hbody).
    assert (Hres : res = inl ValueError).
    { apply Hraise. split; [reflexivity |]. left. reflexivity. }
    subst res. exists s'. split; [exact Hrun |].
    rewrite Hscr, (Hbody ValueError eq_refl). reflexivity.
  - destruct (main_raises_only_on_dbh_bounds read_unsigned
                [ mkCsvRow (Some "Oak") (CStr "4") (CNum NaN) (CNum NaN) None None ]
                (default_user TreeDiameterFilter) empty_session)
      as (res & s' & body & Hrun & Hscr & _ & _ & Hraise & Hbody).
    assert (Hres : res = inl StreamlitAPIException).
    { apply Hraise. split; [reflexivity |]. right. right.
      exists 4, 4. split; [reflexivity |]. split; [reflexivity |].
      split; [lia | reflexivity]. }
    subst res. exists s'. split; [exact Hrun |].
    rewrite Hscr, (Hbody StreamlitAPIException eq_refl). reflexivity.
Defined.

(** ** Filtering by diameter: edges and composition *)

(** X11.  [filter_trees_by_dbh] with bounds that do not satisfy
    [min_dbh <= max_dbh], be it an inverted range or a NaN bound, returns a
    new DataFrame with no rows; it does not raise. *)
Theorem filter_trees_by_dbh_inverted (s : session) (df : loc) (t : table) (a b : num) :
  frames s !! df = Some t ->
  ~ num_le a b ->
  exists (out : loc) (s' : session),
    filter_trees_by_dbh df a b s = (inr out, s') /\
    frames s' !! out = Some [] /\
    out <> df.
Proof.
  intros H Hab. rewrite (filter_trees_by_dbh_run _ _ _ _ _ H).
  eexists _, _. split; [reflexivity |]. split.
  - simpl. rewrite lookup_insert_eq. f_equal. apply filter_none.
    intros r _. destruct (in_dbh_range a b r) eqn:E; [| reflexivity].
    apply in_dbh_range_le in E. destruct E as [E1 E2].
    exfalso. apply Hab. eapply num_le_trans; eassumption.
  - intros Heq. pose proof (fresh_lookup (frames s)) as Hf.
    rewrite Heq in Hf. congruence.
Qed.

Lemma filter_trees_by_dbh_inverted_witness :
  frames sample_session !! 0%nat = Some sample_table /\
  ~ num_le (of_Z 10) (of_Z 3) /\
  exists (out : loc) (s' : session),
    filter_trees_by_dbh 0%nat (of_Z 10) (of_Z 3) sample_session = (inr out, s') /\
    frames s' !! out = Some [] /\
    out <> 0%nat.
Proof.
  assert (Hinv : ~ num_le (of_Z 10) (of_Z 3)).
  { intros Hle. inversion Hle as [| | p q Hpq]; subst.
    unfold Qle in Hpq. simpl in Hpq. lia. }
  split; [reflexivity |]. split; [exact Hinv |].
  apply (filter_trees_by_dbh_inverted sample_session 0%nat sample_table
           (of_Z 10) (of_Z 3)); [reflexivity | exact Hinv].
Defined.

Lemma filter_filter_narrow {A : Type} (p q : A -> bool) (l : list A) :
  (forall a, p a = true -> q a = true) ->
  List.filter p (List.filter q l) = List.filter p l.
Proof.
  intros Hpq. induction l as [| a l IH]; simpl; [reflexivity |].
  destruct (p a) eqn:Ep.
  - rewrite (Hpq a Ep). simpl. rewrite Ep. now f_equal.
  - destruct (q a); simpl; [rewrite Ep |]; exact IH.
Qed.

(** X12.  Filtering the result of a filter narrows it: applying
    [filter_trees_by_dbh] with bounds [a], [b] to the DataFrame returned for
    bounds [c], [d] yields the rows of the table that lie in both ranges,
    and when [c <= a] and [b <= d] it yields exactly the rows a direct
    filter of the table with [a], [b] returns.  Neither call changes the
    table or the first result. *)
Theorem filter_trees_by_dbh_nested (s : session) (df : loc) (t : table) (a b c d : num) :
  frames s !! df = Some t ->
  exists (out1 out2 : loc) (s1 s2 : session) (t1 t2 : table),
    filter_trees_by_dbh df c d s = (inr out1, s1) /\
    filter_trees_by_dbh out1 a b s1 = (inr out2, s2) /\
    frames s1 !! out1 = Some t1 /\
    frames s2 !! df = Some t /\
    frames s2 !! out1 = Some t1 /\
    frames s2 !! out2 = Some t2 /\
    (forall r, In r t2 <->
               In r t /\ (num_le c (dbh r) /\ num_le (dbh r) d) /\
               (num_le a (dbh r) /\ num_le (dbh r) b)) /\
    (num_le c a -> num_le b d ->
     exists (out : loc) (s' : session),
       filter_trees_by_dbh df a b s = (inr out, s') /\ frames s' !! out = Some t2).
Proof.
  intros H.
  set (l1 := fresh (dom (frames s))).
  set (t1 := List.filter (in_dbh_range c d) t).
  set (s1 := mkSession (<[l1 := t1]> (frames s)) (screen s)).
  assert (Hr1 : filter_trees_by_dbh df c d s = (inr l1, s1))
    by exact (filter_trees_by_dbh_run _ _ _ _ _ H).
  assert (H1 : frames s1 !! l1 = Some t1) by apply lookup_insert_eq.
  pose proof (filter_trees_by_dbh_run s1 l1 t1 a b H1) as Hr2.
  set (l2 := fresh (dom (frames s1))) in *.
  assert (Hp1 : preserved (frames s) (frames s1)) by apply preserved_alloc.
  assert (Hp2 : forall x, preserved (frames s1) (<[l2 := x]> (frames s1)))
    by (intros x; apply preserved_alloc).
  eexists l1, l2, s1, _, t1, (List.filter (in_dbh_range a b) t1).
  split; [exact Hr1 |]. split; [exact Hr2 |]. split; [exact H1 |]. cbn [frames].
  split; [apply Hp2, Hp1, H |]. split; [apply Hp2, H1 |].
  split; [apply lookup_insert_eq |]. split.
  - intros r. unfold t1. rewrite !filter_In_iff, !in_dbh_range_le. tauto.
  - intros Hca Hbd. eexists _, _.
    split; [exact (filter_trees_by_dbh_run _ _ _ _ _ H) |].
    simpl. rewrite lookup_insert_eq. f_equal. unfold t1.
    symmetry. apply filter_filter_narrow. intros r Eab.
    apply in_dbh_range_le in Eab. destruct Eab as [E1 E2].
    apply in_dbh_range_le. split; eapply num_le_trans; eassumption.
Qed.

Lemma filter_trees_by_dbh_nested_witness :
  frames sample_session !! 0%nat = Some sample_table /\
  num_le (of_Z 0) (of_Z 3) /\ num_le (of_Z 4) (of_Z 100) /\
  exists (out1 out2 : loc) (s1 s2 : session) (t2 : table),
    filter_trees_by_dbh 0%nat (of_Z 0) (of_Z 100) sample_session = (inr out1, s1) /\
    filter_trees_by_dbh out1 (of_Z 3) (of_Z 4) s1 = (inr out2, s2) /\
    frames s2 !! out2 = Some t2 /\
    exists (out : loc) (s' : session),
      filter_trees_by_dbh 0%nat (of_Z 3) (of_Z 4) sample_session = (inr out, s') /\
      frames s' !! out = Some t2.
Proof.
  assert (H1 : num_le (of_Z 0) (of_Z 3)) by (constructor; unfold Qle; simpl; lia).
  assert (H2 : num_le (of_Z 4) (of_Z 100)) by (constructor; unfold Qle; simpl; lia).
  split; [reflexivity |]. split; [exact H1 |]. split; [exact H2 |].
  destruct (filter_trees_by_dbh_nested sample_session 0%nat sample_table
              (of_Z 3) (of_Z 4) (of_Z 0) (of_Z 100))
    as (out1 & out2 & s1 & s2 & t1 & t2 & Hr1 & Hr2 & _ & _ & _ & Ht2 & _ & Hdirect);
    [reflexivity |].
  exists out1, out2, s1, s2, t2. split; [exact Hr1 |]. split; [exact Hr2 |].
  split; [exact Ht2 |]. exact (Hdirect H1 H2).
Defined.

(** ** Counting by neighborhood: edges and composition *)

Lemma filter_nil_iff {A : Type} (p : A -> bool) (l : list A) :
  length (List.filter p l) = 0%nat <-> forall a, In a l -> p a = false.
Proof.
  induction l as [| a l IH]; simpl; [tauto |].
  destruct (p a) eqn:E; simpl.
  - split; [lia |]. intros H. specialize (H a (or_introl eq_refl)). congruence.
  - rewrite IH. split.
    + intros H b [<- | Hb]; auto.
    + intros H b Hb. apply H. now right.
Qed.

Lemma eq_text_true (c sel : option string) :
  eq_text c sel = true <-> exists n, sel = Some n /\ c = Some n.
Proof.
  destruct c as [a |], sel as [b |]; simpl.
  - rewrite String.eqb_eq. split; [intros ->; eauto | intros (n & ? & ?); congruence].
  - split; [discriminate | intros (n & ? & ?); discriminate].
  - split; [discriminate | intros (n & ? & ?); discriminate].
  - split; [discriminate | intros (n & ? & ?); discriminate].
Qed.

(** X13.  [neighborhood_tree_counts] does not raise on a value that names
    no row.  The total it returns is 0 exactly when no row has the given
    neighborhood, and then the counts Series is empty; this is the case for
    [None], the value the select box returns when it has no option: a
    missing neighborhood never matches. *)
Theorem neighborhood_tree_counts_absent (s : session) (df : loc) (t : table)
    (nb : option string) :
  frames s !! df = Some t ->
  exists (counts : list (string * nat)) (total : nat) (s' : session),
    neighborhood_tree_counts df nb s = (inr (counts, total), s') /\
    (total = 0%nat <->
     forall r n, In r t -> nb = Some n -> neighborhood r <> Some n) /\
    (total = 0%nat -> counts = []) /\
    (nb = None -> total = 0%nat).
Proof.
  intros H. rewrite (neighborhood_tree_counts_run _ _ _ _ H).
  eexists _, _, _. split; [reflexivity |].
  assert (Hzero : length (rows_of_neighborhood nb t) = 0%nat <->
                  forall r n, In r t -> nb = Some n -> neighborhood r <> Some n).
  { unfold rows_of_neighborhood. rewrite filter_nil_iff. split.
    - intros Hall r n Hr -> Heq. specialize (Hall r Hr).
      rewrite Heq in Hall. simpl in Hall. now rewrite String.eqb_refl in Hall.
    - intros Hall r Hr. apply eq_text_false. intros p Hp. now apply (Hall r p). }
  split; [exact Hzero |]. split.
  - intros Hlen. destruct (rows_of_neighborhood nb t); [reflexivity | discriminate].
  - intros ->. apply Hzero. discriminate.
Qed.

Lemma neighborhood_tree_counts_absent_witness :
  frames sample_session !! 0%nat = Some sample_table /\
  exists s' : session,
    neighborhood_tree_counts 0%nat None sample_session = (inr ([], 0%nat), s').
Proof.
  split; [reflexivity |].
  destruct (neighborhood_tree_counts_absent sample_session 0%nat sample_table None)
    as (counts & total & s' & Hrun & _ & Hempty & Hnone); [reflexivity |].
  exists s'. rewrite Hrun. rewrite (Hempty (Hnone eq_refl)), (Hnone eq_refl). reflexivity.
Defined.

Lemma filter_disjoint_length {A : Type} (p q : A -> bool) (l : list A) :
  (forall a, p a = true -> q a = false) ->
  length (List.filter (fun a => p a || q a) l) =
  (length (List.filter p l) + length (List.filter q l))%nat.
Proof.
  intros Hd. induction l as [| a l IH]; simpl; [reflexivity |].
  destruct (p a) eqn:Ep; simpl.
  - rewrite (Hd a Ep). simpl. now rewrite IH.
  - destruct (q a); simpl; rewrite IH; lia.
Qed.

Lemma totals_of_options (proj : row -> option string) (t : table) (l : list string) :
  List.NoDup l ->
  list_sum (map (fun n => length (List.filter (fun r => eq_text (proj r) (Some n)) t)) l) =
  length (List.filter (fun r => match proj r with
                                | Some x => mem_string x l
                                | None => false
                                end) t).
Proof.
  induction l as [| n l IH]; intros Hnd; simpl.
  - symmetry. apply filter_nil_iff. intros r _. now destruct (proj r).
  - inversion Hnd as [| ? ? Hnin Hnd']; subst. rewrite (IH Hnd').
    rewrite <- filter_disjoint_length.
    + f_equal. apply filter_ext_bool. intros r. now destruct (proj r).
    + intros r Hr. apply eq_text_true in Hr. destruct Hr as (m & Hm & ->).
      injection Hm as <-. destruct (mem_string n l) eqn:E; [| reflexivity].
      apply mem_string_In in E. contradiction.
Qed.

(** X14.  The neighborhoods offered by the select box split the rows that
    name a neighborhood: asking [neighborhood_tree_counts] for each offered
    neighborhood in turn gives totals that are all positive and add up to
    the number of rows whose neighborhood is not missing. *)
Theorem neighborhood_totals_partition (s : session) (df : loc) (t : table) :
  frames s !! df = Some t ->
  exists totals : list nat,
    Forall2 (fun n total =>
               (0 < total)%nat /\
               exists counts s',
                 neighborhood_tree_counts df (Some n) s = (inr (counts, total), s'))
            (options_of (map neighborhood t)) totals /\
    list_sum totals =
      count_rows (fun r => negb (bool_decide (neighborhood r = None))) t.
Proof.
  intros H.
  exists (map (fun n => length (rows_of_neighborhood (Some n) t))
              (options_of (map neighborhood t))).
  destruct (options_of_spec (map neighborhood t)) as (Hnd & _ & Hin).
  split.
  - apply Forall2_map_In. intros n Hn. split.
    + apply Hin, in_map_iff in Hn. destruct Hn as (r & Hr & Hrt).
      assert (Hmem : In r (rows_of_neighborhood (Some n) t)).
      { apply filter_In_iff. split; [exact Hrt |]. rewrite Hr. simpl.
        apply String.eqb_refl. }
      destruct (rows_of_neighborhood (Some n) t); [destruct Hmem | simpl; lia].
    + eexists _, _. apply (neighborhood_tree_counts_run _ _ _ _ H).
  - unfold rows_of_neighborhood. rewrite (totals_of_options neighborhood t _ Hnd).
    unfold count_rows. f_equal. apply filter_ext_in. intros r Hr.
    destruct (neighborhood r) as [x |] eqn:E.
    + rewrite bool_decide_eq_false_2 by discriminate. simpl.
      apply mem_string_In, Hin. rewrite <- E. now apply in_map.
    + now rewrite bool_decide_eq_true_2.
Qed.

Lemma neighborhood_totals_partition_witness :
  frames sample_session !! 0%nat = Some sample_table /\
  exists totals : list nat,
    Forall2 (fun n total =>
               (0 < total)%nat /\
               exists counts s',
                 neighborhood_tree_counts 0%nat (Some n) sample_session =
                   (inr (counts, total), s'))
            (options_of (map neighborhood sample_table)) totals /\
    list_sum totals =
      count_rows (fun r => negb (bool_decide (neighborhood r = None))) sample_table.
Proof.
  split; [reflexivity |].
  apply (neighborhood_totals_partition sample_session 0%nat sample_table). reflexivity.
Defined.

(** ** The park view *)

Lemma filter_filter_and {A : Type} (p q : A -> bool) (l : list A) :
  List.filter q (List.filter p l) = List.filter (fun a => p a && q a) l.
Proof.
  induction l as [| a l IH]; simpl; [reflexivity |].
  destruct (p a); simpl; [| exact IH]. destruct (q a); now rewrite IH.
Qed.

Lemma filter_length_le {A : Type} (p : A -> bool) (l : list A) :
  (length (List.filter p l) <= length l)%nat.
Proof. induction l as [| a l IH]; simpl; [lia |]. destruct (p a); simpl; lia. Qed.

(** X15.  The park view reports as total the number of rows whose park is
    the selected one, and maps only trees of that park: when a map is drawn
    its layer has one point for each row of the selected park that has a
    valid position, so never more points than the reported total, and every
    point carries the selected park.  When the select box behaves and some
    row names a park, the reported total is positive. *)
Theorem park_view_totals (s : session) (df : loc) (t : table) (w : widgets) :
  frames s !! df = Some t ->
  exists (selected_park : option string) (total : nat) (s' : session) (rest : list event),
    selected_park = selectbox w "Choose a park:" (options_of (map park t)) /\
    page_parks df w s = (inr tt, s') /\
    screen s' =
      (screen s ++
       st_header [Lit "Map of Trees in Parks"]
       :: st_selectbox "Choose a park:" (options_of (map park t))
       :: st_write [Lit "Total trees in "; FStr selected_park; Lit ": ";
                    FInt (Z.of_nat total)]
       :: rest)%list /\
    total = count_rows (fun r => eq_text (park r) selected_park) t /\
    (forall d, In (st_pydeck_chart d) rest ->
       length (layer_data d) =
         count_rows (fun r => eq_text (park r) selected_park && valid_coords r) t /\
       (length (layer_data d) <= total)%nat /\
       forall r, In r (layer_data d) -> park r = selected_park) /\
    (selectbox_ok w -> (exists r p, In r t /\ park r = Some p) -> (0 < total)%nat).
Proof.
  intros H. destruct (page_parks_run s df t w H) as (h' & Hrun & _).
  set (sel := selectbox w "Choose a park:" (options_of (map park t))) in *.
  eexists sel, (length (rows_of_park sel t)), _, (map_events (rows_of_park sel t)).
  split; [reflexivity |]. split; [exact Hrun |]. split; [reflexivity |].
  split; [reflexivity |]. split.
  - intros d Hd. apply map_events_chart in Hd. destruct Hd as [_ ->].
    rewrite layer_rows_length, map_points_filter. unfold rows_of_park.
    split; [now rewrite filter_filter_and |]. split; [apply filter_length_le |].
    intros r' Hr'.
    destruct (Forall2_In_r _ _ _ _ (layer_rows_shown _) Hr')
      as (r & Hr & _ & _ & _ & Hpark & _).
    apply filter_In_iff in Hr. destruct Hr as [Hr _].
    apply filter_In_iff in Hr. destruct Hr as [_ Hr].
    apply eq_text_true in Hr. destruct Hr as (n & Hn & Hp). congruence.
  - intros Hw (r & p & Hr & Hp).
    assert (Hopt : In p (options_of (map park t))).
    { apply options_of_In. rewrite <- Hp. now apply in_map. }
    specialize (Hw "Choose a park:" (options_of (map park t))). fold sel in Hw.
    destruct (options_of (map park t)) as [| x options] eqn:E; [destruct Hopt |].
    destruct Hw as (y & Hy & Hin). rewrite <- E in Hin.
    apply options_of_In, in_map_iff in Hin. destruct Hin as (r0 & Hr0 & Hrt).
    assert (Hmem : In r0 (rows_of_park sel t)).
    { apply filter_In_iff. split; [exact Hrt |]. apply eq_text_true. eauto. }
    destruct (rows_of_park sel t); [destruct Hmem | simpl; lia].
Qed.

Lemma park_view_totals_witness :
  let w := default_user MapOfTreesInParks in
  frames sample_session !! 0%nat = Some sample_table /\
  selectbox_ok w /\
  (exists r p, In r sample_table /\ park r = Some p) /\
  exists (selected_park : option string) (total : nat) (s' : session) (rest : list event),
    selected_park = selectbox w "Choose a park:" (options_of (map park sample_table)) /\
    page_parks 0%nat w sample_session = (inr tt, s') /\
    screen s' =
      (screen sample_session ++
       st_header [Lit "Map of Trees in Parks"]
       :: st_selectbox "Choose a park:" (options_of (map park sample_table))
       :: st_write [Lit "Total trees in "; FStr selected_park; Lit ": ";
                    FInt (Z.of_nat total)]
       :: rest)%list /\
    (0 < total)%nat.
Proof.
  cbv zeta.
  assert (Hsome : exists r p, In r sample_table /\ park r = Some p).
  { eexists _, _. split; [left; reflexivity | reflexivity]. }
  split; [reflexivity |]. split; [apply default_user_selectbox_ok |].
  split; [exact Hsome |].
  destruct (park_view_totals sample_session 0%nat sample_table
              (default_user MapOfTreesInParks))
    as (sel & total & s' & rest & Hsel & Hrun & Hscr & _ & _ & Hpos); [reflexivity |].
  exists sel, total, s', rest. split; [exact Hsel |]. split; [exact Hrun |].
  split; [exact Hscr |]. apply Hpos; [apply default_user_selectbox_ok | exact Hsome].
Defined.

(** ** The neighborhood view: what the bars say *)

Lemma StronglySorted_lookup {A : Type} (R : A -> A -> Prop) (l : list A) (i j : nat) (a b : A) :
  StronglySorted R l -> (i < j)%nat -> l !! i = Some a -> l !! j = Some b -> R a b.
Proof.
  intros Hs. revert i j. induction Hs as [| x l Hs IH Hall]; intros i j Hij Hi Hj.
  - destruct i; discriminate.
  - destruct j as [| j]; [lia |]. destruct i as [| i]; simpl in *.
    + injection Hi as <-. rewrite List.Forall_forall in Hall. apply Hall.
      apply list_elem_of_In, list_elem_of_lookup. eauto.
    + apply (IH i j); [lia | assumption ..].
Qed.

Lemma lookup_In {A : Type} (l : list A) (i : nat) (a : A) : l !! i = Some a -> In a l.
Proof. intros H. apply list_elem_of_In, list_elem_of_lookup. eauto. Qed.

(** X16.  In the neighborhood view every bar tells the truth about the
    selected neighborhood: a bar labelled with a species has as height the
    number of rows of that neighborhood with that species, which is
    positive; no species has two bars; and the bars stand in order of
    non-increasing height.  The view draws this one figure and no other
    chart or map. *)
Theorem neighborhood_bars_are_counts (s : session) (df : loc) (t : table) (w : widgets) :
  frames s !! df = Some t ->
  exists (selected_nb : option string) (labels : list string) (heights cols : list nat)
         (title : text) (s' : session) (before after : list event),
    selected_nb = selectbox w "Select a neighborhood:" (options_of (map neighborhood t)) /\
    page_neighborhood df w s = (inr tt, s') /\
    screen s' =
      (screen s ++ before ++
       st_pyplot (BarFigure labels heights cols labels "Number of Trees" title) :: after)%list /\
    forallb (fun e => negb (is_rendering e)) (before ++ after) = true /\
    List.NoDup labels /\
    length heights = length labels /\
    (forall i sp k, labels !! i = Some sp -> heights !! i = Some k ->
       (0 < k)%nat /\
       k = count_rows (fun r => eq_text (neighborhood r) selected_nb &&
                                bool_decide (spp_com r = Some sp)) t) /\
    (forall i j ki kj, (i <= j)%nat -> heights !! i = Some ki -> heights !! j = Some kj ->
       (kj <= ki)%nat).
Proof.
  intros H. destruct (page_neighborhood_run s df t w H) as (h' & Hrun & _).
  set (sel := selectbox w "Select a neighborhood:" (options_of (map neighborhood t))) in *.
  unfold neighborhood_events in Hrun. fold sel in Hrun.
  unfold rows_of_neighborhood in Hrun.
  set (vc := value_counts
               (map spp_com (List.filter (fun r => eq_text (neighborhood r) sel) t))) in *.
  destruct (value_counts_spec
              (map spp_com (List.filter (fun r => eq_text (neighborhood r) sel) t)))
    as (Hnd & Hin & _ & Hsorted). fold vc in Hnd, Hin, Hsorted.
  unfold bar_events in Hrun.
  eexists sel, (map fst (firstn 30 vc)), (map snd (firstn 30 vc)), _, _, _, _, _.
  split; [reflexivity |]. split; [exact Hrun |]. split; [reflexivity |].
  split.
  { rewrite forallb_app. apply andb_true_iff. split; [reflexivity |].
    simpl. apply forallb_forall. intros e He. apply in_map_iff in He.
    destruct He as ([sp k] & <- & _). reflexivity. }
  split; [rewrite <- List.firstn_map; now apply NoDup_firstn |].
  split; [now rewrite !List.length_map |].
  assert (Hentry : forall i sp k,
             map fst (firstn 30 vc) !! i = Some sp ->
             map snd (firstn 30 vc) !! i = Some k -> In (sp, k) vc).
  { intros i sp k Hl Hh. rewrite map_lookup in Hl. rewrite map_lookup in Hh.
    destruct (firstn 30 vc !! i) as [[sp' k'] |] eqn:E; [| discriminate].
    simpl in Hl, Hh. injection Hl as <-. injection Hh as <-.
    eapply firstn_subset, lookup_In, E. }
  split.
  - intros i sp k Hl Hh. apply (Hentry i sp k Hl) in Hh. apply Hin in Hh.
    destruct Hh as [Hpos ->]. split; [exact Hpos |]. apply occurrences_rows.
  - intros i j ki kj Hij Hi Hj.
    destruct (Nat.eq_dec i j) as [-> | Hne]; [assert (ki = kj) by congruence; lia |].
    rewrite map_lookup in Hi. rewrite map_lookup in Hj.
    destruct (firstn 30 vc !! i) as [[spi ki'] |] eqn:Ei; [| discriminate].
    destruct (firstn 30 vc !! j) as [[spj kj'] |] eqn:Ej; [| discriminate].
    simpl in Hi, Hj. injection Hi as <-. injection Hj as <-.
    assert (Hj30 : (j < 30)%nat).
    { apply lookup_lt_Some in Ej. rewrite List.length_firstn in Ej. lia. }
    rewrite lookup_take_lt in Ei, Ej by lia.
    exact (StronglySorted_lookup count_ge vc i j _ _ Hsorted ltac:(lia) Ei Ej).
Qed.

Lemma neighborhood_bars_are_counts_witness :
  let w := default_user TreesByNeighborhood in
  frames sample_session !! 0%nat = Some sample_table /\
  exists (labels : list string) (heights cols : list nat) (title : text)
         (s' : session) (before after : list event),
    page_neighborhood 0%nat w sample_session = (inr tt, s') /\
    screen s' =
      (screen sample_session ++ before ++
       st_pyplot (BarFigure labels heights cols labels "Number of Trees" title) :: after)%list /\
    List.NoDup labels /\
    length heights = length labels.
Proof.
  cbv zeta. split; [reflexivity |].
  destruct (neighborhood_bars_are_counts sample_session 0%nat sample_table
              (default_user TreesByNeighborhood))
    as (sel & labels & heights & cols & title & s' & before & after
        & _ & Hrun & Hscr & _ & Hnd & Hlen & _); [reflexivity |].
  exists labels, heights, cols, title, s', before, after. auto.
Defined.

(** ** The diameter view: the slider it offers *)


